(** * VoiceCalculator: the duplex audio session engine

    A shallow embedding of [components/VoiceCalculator.tsx] and [types.ts].
    The React component keeps its state in [useState] cells and [useRef]
    boxes and changes it from callbacks; here the cells and boxes are the
    fields of one record [State], and every callback is a function on it.

    Conventions of the embedding:
    - a state setter takes effect at once and in program order (an updater
      function passed to a setter is applied where it is passed);
    - objects handed out by the browser or the SDK (audio contexts, media
      streams, the session promise, nodes) are handles of type [nat], drawn
      from the counter [nextId];
    - what the component does to the outside world (console output, device
      and transport calls) is appended to the field [effects], oldest first;
    - a JavaScript [number] that holds a time is an integer count of device
      ticks ([Z]); the device clock is the value that [ctx.currentTime]
      returns where the handler reads it, and is an input of the handler. *)

From Stdlib Require Import ZArith String List Lia.
From stdpp Require Import base option list strings gmap.

Local Open Scope string_scope.
Local Open Scope list_scope.

(** ** types.ts *)

Inductive ConnectionState : Type :=
  | DISCONNECTED
  | CONNECTING
  | CONNECTED
  | ERROR.

Module Types.
Record CalculationLog : Type := {
  expression : string;
  result : string;
  timestamp : Z;
}.
End Types.

(** ** Values that arrive untyped

    [(fc.args as any).text] is read without a check, so what is stored and
    printed need not be a string: it may be [undefined] (no such key),
    [null], a boolean or a string.  Numbers and nested values are left
    out. *)

Inductive JsValue : Type :=
  | JUndefined
  | JNull
  | JBool (b : bool)
  | JString (s : string).

(** Conversion of a value inside a template literal. *)
Definition toString (v : JsValue) : string :=
  match v with
  | JUndefined => "undefined"
  | JNull => "null"
  | JBool true => "true"
  | JBool false => "false"
  | JString s => s
  end.

(** ** Messages of the transport

    The message types are declared by the SDK, outside this program.  Their
    shape is read off the accesses in [onmessage]: every field reached
    through [?.] is optional; [id], [name], [args] and [functionCalls] are
    read plainly, as each call of a batch carries an id, a name and an
    argument map. *)

Record FunctionCall : Type := {
  fc_id : string;
  fc_name : string;
  fc_args : gmap string JsValue;
}.

Record FunctionResponse : Type := {
  fr_id : string;
  fr_name : string;
  fr_result : string;          (* response: { result } *)
}.

Record Transcription : Type := { text : option string }.
Record Blob : Type := { data : option string }.
Record Part : Type := { inlineData : option Blob }.
Record Content : Type := { parts : option (list Part) }.

Record LiveServerContent : Type := {
  inputTranscription : option Transcription;
  modelTurn : option Content;
}.

Record LiveServerToolCall : Type := { functionCalls : list FunctionCall }.

Record LiveServerMessage : Type := {
  serverContent : option LiveServerContent;
  toolCall : option LiveServerToolCall;
}.

(** ** Audio objects *)

Record AudioBuffer : Type := { duration : Z }.

(** A buffer source node: [startTime] is set by [start(when)]. *)
Record AudioBufferSourceNode : Type := {
  nodeId : nat;
  buffer : option AudioBuffer;
  startTime : option Z;
}.

(** ** Effects on the outside world *)

Inductive Effect : Type :=
  | ConsoleLog (msg : string)
  | ConsoleWarn (msg : string)
  | ConsoleError (msg : string)
  | NewAudioContext (ctx : nat) (sampleRate : Z)
  | GetUserMedia
  | LiveConnect (sessionPromise : nat)
  | CreateScriptProcessor (ctx : nat)
  | TrackStop (stream : nat)
  | ContextClose (ctx : nat)
  | SessionClose (sessionPromise : nat)
  | NodeStart (node : nat) (when : Z) (dur : Z)
  | NodeStop (node : nat)
  | SendToolResponse (sessionPromise : nat) (responses : list FunctionResponse).

(** How a callback ends: it returns (an [async] one resolves), or it throws
    (an [async] one rejects). *)
Inductive Completion : Type :=
  | Normal
  | Throw.

(** ** The component state *)

Record State : Type := mkState {
  (* useState *)
  connectionState : ConnectionState;
  displayText : JsValue;
  expression : string;
  history : list string;
  analyser : option nat;
  (* useRef *)
  inputAudioContextRef : option nat;
  outputAudioContextRef : option nat;
  streamRef : option nat;
  sessionRef : option nat;
  nextStartTimeRef : Z;
  sourcesRef : list AudioBufferSourceNode;
  currentInputRef : string;
  isResultFinalRef : bool;
  (* the outside world *)
  effects : list Effect;
  nextId : nat;
}.

Definition initialState : State := {|
  connectionState := DISCONNECTED;
  displayText := JString "音声入力を開始";
  expression := "";
  history := [];
  analyser := None;
  inputAudioContextRef := None;
  outputAudioContextRef := None;
  streamRef := None;
  sessionRef := None;
  nextStartTimeRef := 0;
  sourcesRef := [];
  currentInputRef := "";
  isResultFinalRef := false;
  effects := [];
  nextId := 0;
|}.

(** Setters, one per cell. *)

Definition setConnectionState (v : ConnectionState) (s : State) : State :=
  mkState v (displayText s) (expression s) (history s) (analyser s)
    (inputAudioContextRef s) (outputAudioContextRef s) (streamRef s)
    (sessionRef s) (nextStartTimeRef s) (sourcesRef s) (currentInputRef s)
    (isResultFinalRef s) (effects s) (nextId s).

Definition setDisplayText (v : JsValue) (s : State) : State :=
  mkState (connectionState s) v (expression s) (history s) (analyser s)
    (inputAudioContextRef s) (outputAudioContextRef s) (streamRef s)
    (sessionRef s) (nextStartTimeRef s) (sourcesRef s) (currentInputRef s)
    (isResultFinalRef s) (effects s) (nextId s).

Definition setExpression (v : string) (s : State) : State :=
  mkState (connectionState s) (displayText s) v (history s) (analyser s)
    (inputAudioContextRef s) (outputAudioContextRef s) (streamRef s)
    (sessionRef s) (nextStartTimeRef s) (sourcesRef s) (currentInputRef s)
    (isResultFinalRef s) (effects s) (nextId s).

Definition setHistory (f : list string -> list string) (s : State) : State :=
  mkState (connectionState s) (displayText s) (expression s) (f (history s))
    (analyser s)
    (inputAudioContextRef s) (outputAudioContextRef s) (streamRef s)
    (sessionRef s) (nextStartTimeRef s) (sourcesRef s) (currentInputRef s)
    (isResultFinalRef s) (effects s) (nextId s).

Definition setAnalyser (v : option nat) (s : State) : State :=
  mkState (connectionState s) (displayText s) (expression s) (history s) v
    (inputAudioContextRef s) (outputAudioContextRef s) (streamRef s)
    (sessionRef s) (nextStartTimeRef s) (sourcesRef s) (currentInputRef s)
    (isResultFinalRef s) (effects s) (nextId s).

Definition set_inputAudioContextRef (v : option nat) (s : State) : State :=
  mkState (connectionState s) (displayText s) (expression s) (history s)
    (analyser s)
    v (outputAudioContextRef s) (streamRef s)
    (sessionRef s) (nextStartTimeRef s) (sourcesRef s) (currentInputRef s)
    (isResultFinalRef s) (effects s) (nextId s).

Definition set_outputAudioContextRef (v : option nat) (s : State) : State :=
  mkState (connectionState s) (displayText s) (expression s) (history s)
    (analyser s)
    (inputAudioContextRef s) v (streamRef s)
    (sessionRef s) (nextStartTimeRef s) (sourcesRef s) (currentInputRef s)
    (isResultFinalRef s) (effects s) (nextId s).

Definition set_streamRef (v : option nat) (s : State) : State :=
  mkState (connectionState s) (displayText s) (expression s) (history s)
    (analyser s)
    (inputAudioContextRef s) (outputAudioContextRef s) v
    (sessionRef s) (nextStartTimeRef s) (sourcesRef s) (currentInputRef s)
    (isResultFinalRef s) (effects s) (nextId s).

Definition set_sessionRef (v : option nat) (s : State) : State :=
  mkState (connectionState s) (displayText s) (expression s) (history s)
    (analyser s)
    (inputAudioContextRef s) (outputAudioContextRef s) (streamRef s)
    v (nextStartTimeRef s) (sourcesRef s) (currentInputRef s)
    (isResultFinalRef s) (effects s) (nextId s).

Definition set_nextStartTimeRef (v : Z) (s : State) : State :=
  mkState (connectionState s) (displayText s) (expression s) (history s)
    (analyser s)
    (inputAudioContextRef s) (outputAudioContextRef s) (streamRef s)
    (sessionRef s) v (sourcesRef s) (currentInputRef s)
    (isResultFinalRef s) (effects s) (nextId s).

Definition set_sourcesRef (v : list AudioBufferSourceNode) (s : State) : State :=
  mkState (connectionState s) (displayText s) (expression s) (history s)
    (analyser s)
    (inputAudioContextRef s) (outputAudioContextRef s) (streamRef s)
    (sessionRef s) (nextStartTimeRef s) v (currentInputRef s)
    (isResultFinalRef s) (effects s) (nextId s).

Definition set_currentInputRef (v : string) (s : State) : State :=
  mkState (connectionState s) (displayText s) (expression s) (history s)
    (analyser s)
    (inputAudioContextRef s) (outputAudioContextRef s) (streamRef s)
    (sessionRef s) (nextStartTimeRef s) (sourcesRef s) v
    (isResultFinalRef s) (effects s) (nextId s).

Definition set_isResultFinalRef (v : bool) (s : State) : State :=
  mkState (connectionState s) (displayText s) (expression s) (history s)
    (analyser s)
    (inputAudioContextRef s) (outputAudioContextRef s) (streamRef s)
    (sessionRef s) (nextStartTimeRef s) (sourcesRef s) (currentInputRef s)
    v (effects s) (nextId s).

Definition set_effects (v : list Effect) (s : State) : State :=
  mkState (connectionState s) (displayText s) (expression s) (history s)
    (analyser s)
    (inputAudioContextRef s) (outputAudioContextRef s) (streamRef s)
    (sessionRef s) (nextStartTimeRef s) (sourcesRef s) (currentInputRef s)
    (isResultFinalRef s) v (nextId s).

(** [emit e] performs the effect [e]. *)
Definition emit (e : Effect) (s : State) : State :=
  mkState (connectionState s) (displayText s) (expression s) (history s)
    (analyser s)
    (inputAudioContextRef s) (outputAudioContextRef s) (streamRef s)
    (sessionRef s) (nextStartTimeRef s) (sourcesRef s) (currentInputRef s)
    (isResultFinalRef s) (effects s ++ [e]) (nextId s).

(** [alloc s] hands out a fresh handle. *)
Definition alloc (s : State) : nat * State :=
  (nextId s,
   mkState (connectionState s) (displayText s) (expression s) (history s)
     (analyser s)
     (inputAudioContextRef s) (outputAudioContextRef s) (streamRef s)
     (sessionRef s) (nextStartTimeRef s) (sourcesRef s) (currentInputRef s)
     (isResultFinalRef s) (effects s) (S (nextId s))).

(** Optional chaining: [x ?. f] is [x?.f]. *)
Definition chain {A B : Type} (x : option A) (f : A -> option B) : option B :=
  match x with
  | Some a => f a
  | None => None
  end.

Notation "x ?. f" := (chain x f) (at level 40, left associativity).

(** Statements in sequence: [s |> f |> g] runs [f], then [g]. *)
Notation "s |> f" := (f s) (at level 45, left associativity, only parsing).

(** ** The environment of the component

    [decode] and [decodeAudioData] come from [utils/audioUtils], and are
    taken as they are called: from the payload to bytes, and from bytes (with
    the context, the sample rate and the channel count) to an audio buffer;
    [None] stands for a call that throws or a promise that rejects.
    [API_KEY] is [process.env.API_KEY].  [closeThrows p] tells whether
    [session.close()] throws for the session behind the promise [p]; the
    close runs in a [then] of that promise and is entered in the trace where
    [cleanup] asks for it. *)

Record Env : Type := {
  API_KEY : option string;
  decode : string -> option (list Byte.byte);
  decodeAudioData : list Byte.byte -> nat -> Z -> Z -> option AudioBuffer;
  closeThrows : nat -> bool;
}.

(** A JavaScript [Set] of nodes: insertion order, one entry per object. *)
Module NodeSet.
Definition has (n : AudioBufferSourceNode) (l : list AudioBufferSourceNode) : bool :=
  existsb (fun m => Nat.eqb (nodeId m) (nodeId n)) l.

Definition add (n : AudioBufferSourceNode) (l : list AudioBufferSourceNode)
  : list AudioBufferSourceNode :=
  if has n l then l else l ++ [n].

Definition delete (id : nat) (l : list AudioBufferSourceNode)
  : list AudioBufferSourceNode :=
  List.filter (fun m => negb (Nat.eqb (nodeId m) id)) l.
End NodeSet.

Section VoiceCalculator.

Variable env : Env.

(** *** onmessage, part 1: real-time transcription (lines 158-170) *)

Definition inputTr (message : LiveServerMessage) : option Transcription :=
  serverContent message ?. inputTranscription.

Definition handleTranscription (message : LiveServerMessage) (s : State) : State :=
  match inputTr message ?. text with
  | None | Some "" => s                      (* inputTr && inputTr.text *)
  | Some fragment =>
      let s :=
        if isResultFinalRef s then
          s |> set_currentInputRef ""
            |> setExpression ""
            |> set_isResultFinalRef false
        else s in
      let s := s |> set_currentInputRef (currentInputRef s +:+ fragment) in
      s |> setExpression (currentInputRef s)
  end.

(** *** onmessage, part 2: tool calls (lines 173-200) *)

(** The entry that [displayResult] stores: a template literal. *)
Definition historyEntry (currentInput : string) (v : JsValue) : string :=
  currentInput +:+ " = " +:+ toString v.

(** One turn of the loop over [functionCalls]. *)
Definition functionCallBody (acc : State * list FunctionResponse) (fc : FunctionCall)
  : State * list FunctionResponse :=
  let '(s, functionResponses) := acc in
  let result := "ok" in
  let s :=
    if String.eqb (fc_name fc) "displayResult" then
      let txt := default JUndefined (fc_args fc !! "text") in
      s |> setDisplayText txt
        |> setHistory (fun prev => take 10 (historyEntry (currentInputRef s) txt :: prev))
        |> set_isResultFinalRef true
    else if String.eqb (fc_name fc) "resetApp" then
      s |> setDisplayText (JString "0")
        |> setExpression ""
        |> set_currentInputRef ""
        |> setHistory (fun _ => [])
        |> set_isResultFinalRef false
    else s in
  (s, functionResponses ++
        [{| fr_id := fc_id fc; fr_name := fc_name fc; fr_result := result |}]).

Definition handleToolCall (sessionPromise : nat) (message : LiveServerMessage)
    (s : State) : State :=
  match toolCall message with
  | None => s
  | Some tc =>
      let s := s |> emit (ConsoleLog "Tool Call:") in
      let '(s, functionResponses) :=
        fold_left functionCallBody (functionCalls tc) (s, []) in
      s |> emit (SendToolResponse sessionPromise functionResponses)
  end.

(** *** onmessage, part 3: audio output (lines 203-224) *)

Definition base64Audio (message : LiveServerMessage) : option string :=
  serverContent message ?. modelTurn ?. parts
    ?. (fun ps : list Part => ps !! 0%nat) ?. inlineData ?. data.

(** [await decodeAudioData(decode(base64Audio), ctx, 24000, 1)] *)
Definition decodeFragment (ctx : nat) (b64 : string) : option AudioBuffer :=
  match decode env b64 with
  | None => None
  | Some bytes => decodeAudioData env bytes ctx 24000 1
  end.

Definition handleAudio (now : Z) (message : LiveServerMessage) (s : State)
  : State * Completion :=
  match base64Audio message with
  | None | Some "" => (s, Normal)
  | Some b64 =>
      match outputAudioContextRef s with
      | None => (s, Normal)
      | Some ctx =>
          let s := s |> set_nextStartTimeRef (Z.max (nextStartTimeRef s) now) in
          match decodeFragment ctx b64 with
          | None => (s, Throw)
          | Some audioBuffer =>
              let '(id, s) := alloc s in
              let source :=
                {| nodeId := id;
                   buffer := Some audioBuffer;
                   startTime := Some (nextStartTimeRef s) |} in
              let s := s |> emit (NodeStart id (nextStartTimeRef s) (duration audioBuffer)) in
              let s := s |> set_nextStartTimeRef (nextStartTimeRef s + duration audioBuffer) in
              (s |> set_sourcesRef (NodeSet.add source (sourcesRef s)), Normal)
          end
      end
  end.

(** The listener that [onmessage] registers on every source it starts. *)
Definition onended (id : nat) (s : State) : State :=
  s |> set_sourcesRef (NodeSet.delete id (sourcesRef s)).

(** The handler itself: [sessionPromise] is the promise of the [connect]
    call that installed it, [now] the reading of [ctx.currentTime]. *)
Definition onmessage (sessionPromise : nat) (now : Z) (message : LiveServerMessage)
    (s : State) : State * Completion :=
  s |> handleTranscription message
    |> handleToolCall sessionPromise message
    |> handleAudio now message.

(** *** cleanup (lines 64-93) *)

(** [sourcesRef.current.forEach(source => source.stop())]: [stop] throws
    on a node that was never started, which ends the loop. *)
Fixpoint stopAll (l : list AudioBufferSourceNode) (s : State) : State * Completion :=
  match l with
  | [] => (s, Normal)
  | source :: rest =>
      match startTime source with
      | None => (s, Throw)
      | Some _ => stopAll rest (s |> emit (NodeStop (nodeId source)))
      end
  end.

Definition cleanup (s : State) : State * Completion :=
  let s :=
    match streamRef s with
    | Some stream => s |> emit (TrackStop stream) |> set_streamRef None
    | None => s
    end in
  let s :=
    match inputAudioContextRef s with
    | Some ctx => s |> emit (ContextClose ctx) |> set_inputAudioContextRef None
    | None => s
    end in
  let s :=
    match outputAudioContextRef s with
    | Some ctx => s |> emit (ContextClose ctx) |> set_outputAudioContextRef None
    | None => s
    end in
  let s :=
    match sessionRef s with
    | Some p =>
        let s := s |> emit (SessionClose p) in
        let s :=
          if closeThrows env p
          then s |> emit (ConsoleWarn "Error closing session")
          else s in
        s |> set_sessionRef None
    | None => s
    end in
  match stopAll (sourcesRef s) s with
  | (s, Throw) => (s, Throw)
  | (s, Normal) =>
      (s |> set_sourcesRef []
         |> setConnectionState DISCONNECTED
         |> setAnalyser None
         |> set_currentInputRef ""
         |> set_isResultFinalRef false,
       Normal)
  end.

(** *** connect (lines 95-244)

    [connect] runs up to its [await] of [getUserMedia]; the rest of its
    body runs when that promise settles: [connect_resolved] when it
    resolves, [connect_rejected] (the [catch] block) when it rejects. *)

Definition connect_catch (s : State) : State :=
  s |> emit (ConsoleError "Connection failed")
    |> setConnectionState ERROR.

Definition connect (s : State) : State :=
  let s := s |> setConnectionState CONNECTING in
  match API_KEY env with
  | None | Some "" => connect_catch s            (* !apiKey *)
  | Some _ =>
      let '(inputCtx, s) := alloc s in
      let s := s |> emit (NewAudioContext inputCtx 16000) in
      let '(outputCtx, s) := alloc s in
      let s := s |> emit (NewAudioContext outputCtx 24000) in
      s |> set_inputAudioContextRef (Some inputCtx)
        |> set_outputAudioContextRef (Some outputCtx)
        |> emit GetUserMedia
  end.

Definition connect_resolved (s : State) : State :=
  let '(stream, s) := alloc s in
  let s := s |> set_streamRef (Some stream) in
  let '(analyserNode, s) := alloc s in
  let s := s |> setAnalyser (Some analyserNode) in
  let '(sessionPromise, s) := alloc s in
  s |> emit (LiveConnect sessionPromise)
    |> set_sessionRef (Some sessionPromise).

Definition connect_rejected (s : State) : State := connect_catch s.

(** The other callbacks handed to [ai.live.connect]. *)

Definition onopen (inputCtx : nat) (s : State) : State :=
  s |> emit (ConsoleLog "Gemini Live Connected")
    |> setConnectionState CONNECTED
    |> emit (CreateScriptProcessor inputCtx).

Definition onclose (s : State) : State :=
  s |> emit (ConsoleLog "Gemini Live Closed")
    |> setConnectionState DISCONNECTED.

Definition onerror (s : State) : State * Completion :=
  s |> emit (ConsoleError "Gemini Live Error")
    |> setConnectionState ERROR
    |> cleanup.

(** *** The two intents of the presentation surface (lines 246-264) *)

Definition toggleConnection (s : State) : State * Completion :=
  match connectionState s with
  | CONNECTED | CONNECTING => cleanup s
  | _ => (connect s, Normal)
  end.

Definition handleManualReset (s : State) : State :=
  s |> setDisplayText (JString "0")
    |> setExpression ""
    |> setHistory (fun _ => [])
    |> set_currentInputRef ""
    |> set_isResultFinalRef false.

(** *** The event loop

    One event is one callback run to its end.  The data that a callback
    would find in its closure ([inputCtx], [sessionPromise], the node of
    an [ended] listener) comes with the event and is not restricted: the
    states reached here include all that the component can reach. *)

Inductive Event : Type :=
  | ToggleConnection
  | HandleManualReset
  | Unmount                                   (* the effect's cleanup *)
  | GetUserMediaResolved
  | GetUserMediaRejected
  | OnOpen (inputCtx : nat)
  | OnMessage (sessionPromise : nat) (now : Z) (message : LiveServerMessage)
  | OnClose
  | OnError
  | Ended (node : nat).

Definition step (e : Event) (s : State) : State :=
  match e with
  | ToggleConnection => fst (toggleConnection s)
  | HandleManualReset => handleManualReset s
  | Unmount => fst (cleanup s)
  | GetUserMediaResolved => connect_resolved s
  | GetUserMediaRejected => connect_rejected s
  | OnOpen inputCtx => onopen inputCtx s
  | OnMessage p now message => fst (onmessage p now message s)
  | OnClose => onclose s
  | OnError => fst (onerror s)
  | Ended node => onended node s
  end.

Definition run (events : list Event) (s : State) : State :=
  fold_left (fun s e => step e s) events s.

Inductive reachable : State -> Prop :=
  | reachable_initial : reachable initialState
  | reachable_step e s : reachable s -> reachable (step e s).

End VoiceCalculator.

(** ** Derived notions used by the statements *)

(** The texts of a run of fragments, joined in order. *)
Definition concatenation (texts : list string) : string :=
  fold_right String.append "" texts.

(** A message that carries one transcription fragment and nothing else. *)
Definition fragmentMessage (t : string) : LiveServerMessage :=
  {| serverContent :=
       Some {| inputTranscription := Some {| text := Some t |};
               modelTurn := None |};
     toolCall := None |}.

(** A message that carries one batch of tool calls and nothing else. *)
Definition toolCallMessage (calls : list FunctionCall) : LiveServerMessage :=
  {| serverContent := None;
     toolCall := Some {| functionCalls := calls |} |}.

(** A message that carries one audio fragment and nothing else. *)
Definition audioMessage (b64 : string) : LiveServerMessage :=
  {| serverContent :=
       Some {| inputTranscription := None;
               modelTurn :=
                 Some {| parts := Some [ {| inlineData := Some {| data := Some b64 |} |} ] |} |};
     toolCall := None |}.

(** The acknowledgement that the dispatcher builds for a call. *)
Definition acknowledgement (fc : FunctionCall) : FunctionResponse :=
  {| fr_id := fc_id fc; fr_name := fc_name fc; fr_result := "ok" |}.

(** What a trace shows of the playback schedule: start time and duration of
    every buffer started, in order. *)
Definition scheduled (l : list Effect) : list (Z * Z) :=
  omap (fun e => match e with NodeStart _ w d => Some (w, d) | _ => None end) l.

(** The tool-response messages of a trace, in order. *)
Definition toolResponses (l : list Effect) : list (list FunctionResponse) :=
  omap (fun e => match e with SendToolResponse _ rs => Some rs | _ => None end) l.

(** The console output of a trace. *)
Definition isConsole (e : Effect) : bool :=
  match e with
  | ConsoleLog _ | ConsoleWarn _ | ConsoleError _ => true
  | _ => false
  end.

(** The acquisitions of a device or transport resource in a trace. *)
Definition isAcquisition (e : Effect) : bool :=
  match e with
  | NewAudioContext _ _ | GetUserMedia | LiveConnect _ | CreateScriptProcessor _ => true
  | _ => false
  end.

(** What [s'] did beyond [s], when [s'] comes after [s]. *)
Definition newEffects (s s' : State) : list Effect :=
  drop (length (effects s)) (effects s').

(** Delivery of a run of inbound messages, each with the clock reading of
    its handler. *)
Definition deliver (env : Env) (p : nat) (inbound : list (Z * LiveServerMessage))
    (s : State) : State :=
  run env (map (fun m => OnMessage p (fst m) (snd m)) inbound) s.

(** The text of the transcription fragment that a message carries, empty
    when it carries none. *)
Definition fragmentText (message : LiveServerMessage) : string :=
  default "" (inputTr message ?. text).

(** Parts 2 and 3 of [onmessage] leave the accumulator alone when there is
    no tool call. *)
Definition sameTranscript (s s' : State) : Prop :=
  currentInputRef s' = currentInputRef s
  /\ expression s' = expression s
  /\ isResultFinalRef s' = isResultFinalRef s.

(** The reading of the history that the data model of [types.ts] suggests:
    every entry stands for a record, from which the expression and the
    result of the call that stored it can be read back through [view]. *)
Definition storesStructuredRecord (view : string -> Types.CalculationLog) : Prop :=
  forall (s : State) (rs : list FunctionResponse) (fc : FunctionCall) (txt : string),
    fc_name fc = "displayResult" ->
    fc_args fc !! "text" = Some (JString txt) ->
    exists entry,
      head (history (fst (functionCallBody (s, rs) fc))) = Some entry
      /\ Types.expression (view entry) = currentInputRef s
      /\ Types.result (view entry) = txt.

(** What part 2 of [onmessage] adds to the trace. *)
Definition toolCallEffects (p : nat) (message : LiveServerMessage) : list Effect :=
  match toolCall message with
  | None => []
  | Some tc =>
      [ConsoleLog "Tool Call:";
       SendToolResponse p (map acknowledgement (functionCalls tc))]
  end.

(** Buffers in the order of their start, none beginning before the one
    before it has ended. *)
Inductive backToBack : list (Z * Z) -> Prop :=
  | backToBack_nil : backToBack []
  | backToBack_one b : backToBack [b]
  | backToBack_cons w d w' d' l :
      (w + d <= w')%Z ->
      backToBack ((w', d') :: l) ->
      backToBack ((w, d) :: (w', d') :: l).

(** The first buffer of a schedule, if any, starts at [t] or later. *)
Definition startsFrom (t : Z) (l : list (Z * Z)) : Prop :=
  match l with
  | [] => True
  | (w, _) :: _ => (t <= w)%Z
  end.

(** A node on which [start] has been called. *)
Definition started (n : AudioBufferSourceNode) : Prop := startTime n <> None.

(** What holds of every state that the component reaches: the history has
    at most ten entries, and every node in the set of sources was started
    before it was put there. *)
Definition invariant (s : State) : Prop :=
  length (history s) <= 10 /\ Forall started (sourcesRef s).

(** The state in which [cleanup] leaves the component when it returns. *)
Definition tornDown (s : State) (released : list Effect) : State :=
  mkState DISCONNECTED (displayText s) (expression s) (history s) None
    None None None None (nextStartTimeRef s) [] "" false
    (effects s ++ released) (nextId s).

(** The three ways in which part 3 of [onmessage] ends, from the state [s]
    in which it begins. *)
Inductive AudioOutcome (env : Env) (now : Z) (message : LiveServerMessage) (s : State)
  : State * Completion -> Prop :=
  | audio_skipped :
      base64Audio message = None \/ base64Audio message = Some ""
      \/ outputAudioContextRef s = None ->
      AudioOutcome env now message s (s, Normal)
  | audio_dropped b64 ctx :
      base64Audio message = Some b64 ->
      b64 <> "" ->
      outputAudioContextRef s = Some ctx ->
      decodeFragment env ctx b64 = None ->
      AudioOutcome env now message s
        (set_nextStartTimeRef (Z.max (nextStartTimeRef s) now) s, Throw)
  | audio_scheduled b64 ctx audioBuffer s' :
      base64Audio message = Some b64 ->
      b64 <> "" ->
      outputAudioContextRef s = Some ctx ->
      decodeFragment env ctx b64 = Some audioBuffer ->
      effects s' = effects s
                   ++ [NodeStart (nextId s) (Z.max (nextStartTimeRef s) now)
                         (duration audioBuffer)] ->
      nextStartTimeRef s' = (Z.max (nextStartTimeRef s) now + duration audioBuffer)%Z ->
      sourcesRef s' =
        NodeSet.add {| nodeId := nextId s;
                       buffer := Some audioBuffer;
                       startTime := Some (Z.max (nextStartTimeRef s) now) |}
                    (sourcesRef s) ->
      outputAudioContextRef s' = outputAudioContextRef s ->
      AudioOutcome env now message s (s', Normal).

(** Parts 1 and 2 of [onmessage] leave the playback state alone. *)
Definition samePlayback (s s' : State) : Prop :=
  nextStartTimeRef s' = nextStartTimeRef s
  /\ outputAudioContextRef s' = outputAudioContextRef s
  /\ sourcesRef s' = sourcesRef s.

(** ** Sample data *)

Module Sample.
(** A decoder for examples: the payload ["bad"] does not decode, any other
    payload gives a buffer of ten ticks. *)
Definition env : Env := {|
  API_KEY := Some "key";
  decode := fun b64 => if String.eqb b64 "bad" then None else Some [];
  decodeAudioData := fun _ _ _ _ => Some {| duration := 10 |};
  closeThrows := fun _ => false;
|}.

Definition displayResult (id : string) (v : string) : FunctionCall :=
  {| fc_id := id; fc_name := "displayResult"; fc_args := {[ "text" := JString v ]} |}.

Definition displayResultNoText (id : string) : FunctionCall :=
  {| fc_id := id; fc_name := "displayResult"; fc_args := ∅ |}.

Definition resetApp (id : string) : FunctionCall :=
  {| fc_id := id; fc_name := "resetApp"; fc_args := ∅ |}.

Definition unknownCall (id : string) : FunctionCall :=
  {| fc_id := id; fc_name := "openPodBayDoors"; fc_args := ∅ |}.

(** The state after the fragments "3", "+", "5". *)
Definition typed35 : State :=
  deliver env 0 (map (fun t => (0%Z, fragmentMessage t)) ["3"; "+"; "5"]) initialState.

(** ... and after [displayResult("8")] on top of it. *)
Definition finalized35 : State :=
  run env [OnMessage 0 0 (toolCallMessage [displayResult "call-1" "8"])] typed35.

(** A history with ten entries: ten results shown for the same buffer. *)
Definition fullHistory : State :=
  run env
    [OnMessage 0 0
       (toolCallMessage
          (map (displayResult "call")
             ["1"; "2"; "3"; "4"; "5"; "6"; "7"; "8"; "9"; "10"]))]
    typed35.

(** A connection attempt that waits for the session to open. *)
Definition pendingOpen : State :=
  run env [ToggleConnection; GetUserMediaResolved] initialState.

(** An open session: input context 0, output context 1, session promise 4. *)
Definition connected : State :=
  run env [OnOpen 0] pendingOpen.

(** A session with playback under way. *)
Definition playing : State :=
  deliver env 4 [(5%Z, audioMessage "AAAA"); (7%Z, audioMessage "BBBB")] connected.

(** A connection attempt that is waiting for the microphone. *)
Definition pendingConnect : State :=
  run env [ToggleConnection] initialState.

(** A connection attempt that failed: the microphone was refused. *)
Definition failedConnect : State :=
  run env [ToggleConnection; GetUserMediaRejected] initialState.
End Sample.

(** ** Further notions, for the properties beyond the claims *)

(** A call that the dispatcher does not know by name. *)
Definition unrecognized (fc : FunctionCall) : Prop :=
  fc_name fc <> "displayResult" /\ fc_name fc <> "resetApp".

(** What a [displayResult] call reads as its [text]. *)
Definition textOf (fc : FunctionCall) : JsValue :=
  default JUndefined (fc_args fc !! "text").

(** The display after a reset: result "0", no expression, no history, an
    empty buffer and the flag down. *)
Definition isReset (s : State) : Prop :=
  displayText s = JString "0"
  /\ expression s = ""
  /\ currentInputRef s = ""
  /\ history s = []
  /\ isResultFinalRef s = false.

(** The releases of a device or transport resource in a trace. *)
Definition isRelease (e : Effect) : bool :=
  match e with
  | TrackStop _ | ContextClose _ | SessionClose _ | NodeStop _ => true
  | _ => false
  end.

(** The nodes that a trace stops, in order. *)
Definition stopped (l : list Effect) : list nat :=
  omap (fun e => match e with NodeStop n => Some n | _ => None end) l.

(** Handles are handed out in increasing order: the nodes in the set of
    sources are older than the counter, and no two of them are the same. *)
Definition wellAllocated (s : State) : Prop :=
  Forall (fun n => nodeId n < nextId s) (sourcesRef s)
  /\ NoDup (map nodeId (sourcesRef s)).

(** While a result is final, the head of the history is the entry made of
    the buffer and the displayed result. *)
Definition resultIsLogged (s : State) : Prop :=
  isResultFinalRef s = true ->
  head (history s) = Some (historyEntry (currentInputRef s) (displayText s)).

(** A value that has a [length] to read. *)
Definition isString (v : JsValue) : Prop := exists t, v = JString t.

(** An event whose [displayResult] calls all carry a string as [text]. *)
Definition carriesStringTexts (e : Event) : Prop :=
  match e with
  | OnMessage _ _ message =>
      match toolCall message with
      | Some tc =>
          Forall (fun fc => fc_name fc = "displayResult" -> isString (textOf fc))
                 (functionCalls tc)
      | None => True
      end
  | _ => True
  end.

(** The states reached through events that all satisfy [P]. *)
Inductive reachableBy (env : Env) (P : Event -> Prop) : State -> Prop :=
  | reachableBy_initial : reachableBy env P initialState
  | reachableBy_step e s :
      P e -> reachableBy env P s -> reachableBy env P (step env e s).

(** A decoder that gives no buffer of negative duration. *)
Definition durationsNonNegative (env : Env) : Prop :=
  forall bytes ctx rate channels audioBuffer,
    decodeAudioData env bytes ctx rate channels = Some audioBuffer ->
    (0 <= duration audioBuffer)%Z.

(** What [cleanup] releases in the state [s], in the order of its steps:
    the tracks of the stream, the input context, the output context, the
    session (with the warning when its close throws), and every source. *)
Definition releasesOf (env : Env) (s : State) : list Effect :=
  match streamRef s with Some stream => [TrackStop stream] | None => [] end
  ++ match inputAudioContextRef s with Some ctx => [ContextClose ctx] | None => [] end
  ++ match outputAudioContextRef s with Some ctx => [ContextClose ctx] | None => [] end
  ++ match sessionRef s with
     | Some p =>
         SessionClose p
         :: (if closeThrows env p then [ConsoleWarn "Error closing session"] else [])
     | None => []
     end
  ++ map (fun n => NodeStop (nodeId n)) (sourcesRef s).

(** The state is one in which the button connects. *)
Definition idle (s : State) : Prop :=
  connectionState s = DISCONNECTED \/ connectionState s = ERROR.

(** There is a key to connect with. *)
Definition hasKey (env : Env) : Prop :=
  exists key, API_KEY env = Some key /\ key <> "".

(** The audio contexts that a trace creates, and those that it closes. *)
Definition createdContexts (l : list Effect) : list nat :=
  omap (fun e => match e with NewAudioContext c _ => Some c | _ => None end) l.

Definition closedContexts (l : list Effect) : list nat :=
  omap (fun e => match e with ContextClose c => Some c | _ => None end) l.

(** More sample data. *)
Module Sample2.
(** An environment without a key. *)
Definition noKey : Env := {|
  API_KEY := None;
  decode := decode Sample.env;
  decodeAudioData := decodeAudioData Sample.env;
  closeThrows := closeThrows Sample.env;
|}.

(** Two utterances, fragment by fragment. *)
Definition threePlusFive : list (Z * LiveServerMessage) :=
  map (fun t => (0%Z, fragmentMessage t)) ["3"; "+"; "5"].

Definition sevenMinusTwo : list (Z * LiveServerMessage) :=
  map (fun t => (0%Z, fragmentMessage t)) ["7"; ""; "-"; "2"].
End Sample2.

(** * Properties *)

(** ** Strings *)

Lemma append_empty_r (a : string) : a +:+ "" = a.
Proof.
  induction a as [|x a' IH]; [reflexivity|].
  change (String x (a' +:+ "") = String x a'). now rewrite IH.
Qed.

Lemma append_assoc (a b c : string) : (a +:+ b) +:+ c = a +:+ (b +:+ c).
Proof.
  induction a as [|x a' IH]; [reflexivity|].
  change (String x ((a' +:+ b) +:+ c) = String x (a' +:+ (b +:+ c))).
  now rewrite IH.
Qed.

(** ** The transcription accumulator *)

Section Transcription.

Variable env : Env.

(** Part 1 on a message without a text: nothing happens. *)
Lemma handleTranscription_none message s :
  fragmentText message = "" -> handleTranscription message s = s.
Proof.
  unfold fragmentText, handleTranscription.
  destruct (inputTr message ?. text) as [[|c t]|]; try reflexivity.
  discriminate.
Qed.

(** Part 1 on a message with a text, by the flag. *)
Lemma handleTranscription_text message s :
  fragmentText message <> "" ->
  let s' := handleTranscription message s in
  currentInputRef s'
    = (if isResultFinalRef s then "" else currentInputRef s) +:+ fragmentText message
  /\ expression s' = currentInputRef s'
  /\ isResultFinalRef s' = false.
Proof.
  unfold fragmentText, handleTranscription.
  destruct (inputTr message ?. text) as [[|c t]|]; simpl; try congruence.
  intros _. destruct (isResultFinalRef s) eqn:E; simpl; rewrite ?E; auto.
Qed.

Lemma handleAudio_transcript now message s :
  sameTranscript s (fst (handleAudio env now message s)).
Proof.
  unfold handleAudio, sameTranscript.
  destruct (base64Audio message) as [[|c b]|]; [now auto| |now auto].
  destruct (outputAudioContextRef s) as [ctx|]; [|now auto].
  destruct (decodeFragment env ctx (String c b)); now auto.
Qed.

(** A message without a tool call: only part 1 touches the accumulator. *)
Lemma onmessage_transcript p now message s :
  toolCall message = None ->
  sameTranscript (handleTranscription message s) (fst (onmessage env p now message s)).
Proof.
  intros Htc. unfold onmessage, handleToolCall. rewrite Htc.
  apply handleAudio_transcript.
Qed.

(** While the flag is down and the display mirrors the buffer, a run of
    messages without tool calls appends its texts to the buffer, one after
    the other. *)
Lemma deliver_appends p inbound : forall s,
  Forall (fun m => toolCall (snd m) = None) inbound ->
  isResultFinalRef s = false ->
  expression s = currentInputRef s ->
  let s' := deliver env p inbound s in
  currentInputRef s'
    = currentInputRef s +:+ concatenation (map (fun m => fragmentText (snd m)) inbound)
  /\ expression s' = currentInputRef s'
  /\ isResultFinalRef s' = false.
Proof.
  induction inbound as [|[now message] inbound IH]; intros s Hall Hflag Hmirror.
  - cbv zeta. change (deliver env p [] s) with s.
    unfold concatenation. simpl. rewrite append_empty_r. auto.
  - inversion Hall as [|? ? Htc Hrest]; subst. simpl in Htc.
    cbv zeta.
    change (deliver env p ((now, message) :: inbound) s)
      with (deliver env p inbound (fst (onmessage env p now message s))).
    change (concatenation (map (fun m => fragmentText (snd m)) ((now, message) :: inbound)))
      with (fragmentText message
            +:+ concatenation (map (fun m => fragmentText (snd m)) inbound)).
    destruct (onmessage_transcript p now message s Htc) as (Hb & He & Hf).
    set (s1 := fst (onmessage env p now message s)) in *.
    assert (H1 : currentInputRef s1 = currentInputRef s +:+ fragmentText message
                 /\ expression s1 = currentInputRef s1
                 /\ isResultFinalRef s1 = false).
    { rewrite Hb, He, Hf.
      destruct (string_dec (fragmentText message) "") as [Hnone|Hsome].
      - rewrite (handleTranscription_none message s Hnone), Hnone, append_empty_r.
        auto.
      - destruct (handleTranscription_text message s Hsome) as (G1 & G2 & G3).
        rewrite Hflag in G1. auto. }
    destruct H1 as (G1 & G2 & G3).
    destruct (IH s1 Hrest G3 G2) as (I1 & I2 & I3).
    split; [|split]; [|exact I2|exact I3].
    rewrite I1, G1. apply append_assoc.
Qed.

(** C3: when no result is finalized ([isResultFinalRef] is false) and the
    accumulator is fresh (empty buffer, empty displayed expression), the
    displayed expression after any run of inbound messages without tool
    calls is the concatenation, in delivery order, of the texts of the
    transcription fragments that they carry; the flag stays down and the
    buffer holds the same text. *)
Theorem expression_is_concatenation p (inbound : list (Z * LiveServerMessage))
    (s : State) :
  Forall (fun m => toolCall (snd m) = None) inbound ->
  isResultFinalRef s = false ->
  currentInputRef s = "" ->
  expression s = "" ->
  let s' := deliver env p inbound s in
  let texts := map (fun m => fragmentText (snd m)) inbound in
  expression s' = concatenation texts
  /\ currentInputRef s' = concatenation texts
  /\ isResultFinalRef s' = false.
Proof.
  intros Hall Hflag Hbuf Hexp.
  destruct (deliver_appends p inbound s Hall Hflag) as (H1 & H2 & H3).
  - now rewrite Hexp, Hbuf.
  - rewrite Hbuf in H1.
    change ("" +:+ ?x) with x in H1. cbv zeta. rewrite H2, H1. auto.
Qed.

(** C4, as the code has it: a message without tool calls that arrives
    while [isResultFinalRef] is true.  If it carries a transcription fragment
    with a non-empty text, the buffer and the displayed expression are
    cleared, the flag is lowered, and then the text is appended: buffer and
    displayed expression end as the text of the fragment alone.  If the text
    is empty or missing, the fragment is not taken up: buffer, displayed
    expression and flag stay as they are. *)
Theorem fragment_after_result_starts_afresh p now (message : LiveServerMessage)
    (s : State) :
  isResultFinalRef s = true ->
  toolCall message = None ->
  let s' := fst (onmessage env p now message s) in
  (fragmentText message <> "" ->
     currentInputRef s' = fragmentText message
     /\ expression s' = fragmentText message
     /\ isResultFinalRef s' = false)
  /\ (fragmentText message = "" ->
        currentInputRef s' = currentInputRef s
        /\ expression s' = expression s
        /\ isResultFinalRef s' = true).
Proof.
  intros Hflag Htc. cbv zeta.
  destruct (onmessage_transcript p now message s Htc) as (Hb & He & Hf).
  rewrite Hb, He, Hf. split.
  - intros Hsome.
    destruct (handleTranscription_text message s Hsome) as (G1 & G2 & G3).
    rewrite Hflag in G1. change ("" +:+ ?x) with x in G1.
    rewrite G2, G1. auto.
  - intros Hnone. rewrite (handleTranscription_none message s Hnone). auto.
Qed.

End Transcription.

(** ** The tool dispatcher *)

Section Dispatcher.

Variable env : Env.

Lemma functionCallBody_responses s rs fc :
  snd (functionCallBody (s, rs) fc) = rs ++ [acknowledgement fc].
Proof. reflexivity. Qed.

Lemma functionCallBody_effects s rs fc :
  effects (fst (functionCallBody (s, rs) fc)) = effects s.
Proof.
  unfold functionCallBody.
  destruct (String.eqb (fc_name fc) "displayResult"); [reflexivity|].
  destruct (String.eqb (fc_name fc) "resetApp"); reflexivity.
Qed.

(** The loop: one acknowledgement per call, in the order of the calls, and
    nothing done to the outside world. *)
Lemma functionCalls_loop calls : forall s rs,
  let r := fold_left functionCallBody calls (s, rs) in
  snd r = rs ++ map acknowledgement calls
  /\ effects (fst r) = effects s.
Proof.
  induction calls as [|fc calls IH]; intros s rs; cbv zeta.
  - simpl. now rewrite app_nil_r.
  - change (fold_left functionCallBody (fc :: calls) (s, rs))
      with (fold_left functionCallBody calls (functionCallBody (s, rs) fc)).
    destruct (functionCallBody (s, rs) fc) as [s1 rs1] eqn:E.
    destruct (IH s1 rs1) as [H1 H2]. rewrite H1, H2.
    pose proof (functionCallBody_responses s rs fc) as Hr.
    pose proof (functionCallBody_effects s rs fc) as He.
    rewrite E in Hr, He. simpl in Hr, He. rewrite Hr, He.
    split; [|reflexivity]. now rewrite <- app_assoc.
Qed.

Lemma handleToolCall_effects p message s :
  effects (handleToolCall p message s) = effects s ++ toolCallEffects p message.
Proof.
  unfold handleToolCall, toolCallEffects.
  destruct (toolCall message) as [tc|]; [|now rewrite app_nil_r].
  pose proof (functionCalls_loop (functionCalls tc)
                (emit (ConsoleLog "Tool Call:") s) []) as [H1 H2].
  destruct (fold_left functionCallBody (functionCalls tc)
              (emit (ConsoleLog "Tool Call:") s, [])) as [s1 rs1].
  simpl in H1, H2. subst rs1. simpl. rewrite H2. simpl.
  now rewrite <- app_assoc.
Qed.

Lemma handleTranscription_effects message s :
  effects (handleTranscription message s) = effects s.
Proof.
  unfold handleTranscription.
  destruct (inputTr message ?. text) as [[|c t]|]; try reflexivity.
  destruct (isResultFinalRef s); reflexivity.
Qed.

(** Part 3 adds at most the start of one node. *)
Lemma handleAudio_effects now message s :
  exists delta,
    effects (fst (handleAudio env now message s)) = effects s ++ delta
    /\ toolResponses delta = []
    /\ List.filter isConsole delta = []
    /\ List.filter isAcquisition delta = [].
Proof.
  unfold handleAudio.
  destruct (base64Audio message) as [[|c b]|];
    try (exists []; simpl; now rewrite app_nil_r).
  destruct (outputAudioContextRef s) as [ctx|];
    try (exists []; simpl; now rewrite app_nil_r).
  destruct (decodeFragment env ctx (String c b)) as [audioBuffer|].
  - eexists [_]. simpl. split; [reflexivity|]. auto.
  - exists []. simpl. now rewrite app_nil_r.
Qed.

Lemma newEffects_app s s' delta :
  effects s' = effects s ++ delta -> newEffects s s' = delta.
Proof. unfold newEffects. intros ->. apply drop_app_length. Qed.

Lemma toolResponses_app l1 l2 :
  toolResponses (l1 ++ l2) = toolResponses l1 ++ toolResponses l2.
Proof. unfold toolResponses. apply omap_app. Qed.

(** What [onmessage] adds to the trace: the effects of part 2, then those
    of part 3. *)
Lemma onmessage_effects p now message s :
  exists delta,
    newEffects s (fst (onmessage env p now message s))
    = toolCallEffects p message ++ delta
    /\ toolResponses delta = []
    /\ List.filter isConsole delta = []
    /\ List.filter isAcquisition delta = [].
Proof.
  unfold onmessage.
  destruct (handleAudio_effects now message
              (handleToolCall p message (handleTranscription message s)))
    as (delta & He & Hd).
  exists delta. split; [|exact Hd].
  apply newEffects_app. rewrite He, handleToolCall_effects,
    handleTranscription_effects. now rewrite <- app_assoc.
Qed.

(** C2: for every inbound message that carries a tool-call batch, the
    handler sends exactly one tool-response message, whose responses are
    the acknowledgements of the calls, one per call and in their order:
    as many as there are calls, each with the id and the name of its call
    and the success marker "ok", whatever the name of the call is. *)
Theorem one_acknowledgement_per_call p now (message : LiveServerMessage)
    (tc : LiveServerToolCall) (s : State) :
  toolCall message = Some tc ->
  exists acks : list FunctionResponse,
    toolResponses (newEffects s (fst (onmessage env p now message s))) = [acks]
    /\ length acks = length (functionCalls tc)
    /\ Forall2
         (fun fc ack =>
            fr_id ack = fc_id fc /\ fr_name ack = fc_name fc /\ fr_result ack = "ok")
         (functionCalls tc) acks.
Proof.
  intros Htc. exists (map acknowledgement (functionCalls tc)).
  destruct (onmessage_effects p now message s) as (delta & He & Hd & _).
  rewrite He, toolResponses_app, Hd. unfold toolCallEffects. rewrite Htc.
  split; [reflexivity|]. split; [apply length_map|].
  induction (functionCalls tc) as [|fc calls IH]; constructor; auto.
Qed.

(** The body of the loop on a [displayResult] call. *)
Lemma functionCallBody_displayResult s rs fc :
  fc_name fc = "displayResult" ->
  let v := default JUndefined (fc_args fc !! "text") in
  let s' := fst (functionCallBody (s, rs) fc) in
  displayText s' = v
  /\ history s' = take 10 (historyEntry (currentInputRef s) v :: history s)
  /\ isResultFinalRef s' = true
  /\ currentInputRef s' = currentInputRef s
  /\ expression s' = expression s.
Proof.
  intros Hname. unfold functionCallBody. rewrite Hname. simpl. auto.
Qed.





End Dispatcher.

(** ** The playback scheduler *)

Section Playback.

Variable env : Env.

(** *** Parts 1 and 2 do not touch the playback state *)

Lemma samePlayback_refl s : samePlayback s s.
Proof. repeat split. Qed.

Lemma samePlayback_trans s1 s2 s3 :
  samePlayback s1 s2 -> samePlayback s2 s3 -> samePlayback s1 s3.
Proof.
  unfold samePlayback. intros (A1 & A2 & A3) (B1 & B2 & B3).
  rewrite B1, B2, B3. auto.
Qed.

Lemma handleTranscription_playback message s :
  samePlayback s (handleTranscription message s).
Proof.
  unfold handleTranscription.
  destruct (inputTr message ?. text) as [[|c t]|]; try apply samePlayback_refl.
  destruct (isResultFinalRef s); repeat split.
Qed.

Lemma functionCallBody_playback s rs fc :
  samePlayback s (fst (functionCallBody (s, rs) fc)).
Proof.
  unfold functionCallBody.
  destruct (String.eqb (fc_name fc) "displayResult"); [repeat split|].
  destruct (String.eqb (fc_name fc) "resetApp"); repeat split.
Qed.

Lemma functionCalls_playback calls : forall s rs,
  samePlayback s (fst (fold_left functionCallBody calls (s, rs))).
Proof.
  induction calls as [|fc calls IH]; intros s rs; [apply samePlayback_refl|].
  change (fold_left functionCallBody (fc :: calls) (s, rs))
    with (fold_left functionCallBody calls (functionCallBody (s, rs) fc)).
  pose proof (functionCallBody_playback s rs fc) as H1.
  destruct (functionCallBody (s, rs) fc) as [s1 rs1].
  exact (samePlayback_trans _ _ _ H1 (IH s1 rs1)).
Qed.

Lemma handleToolCall_playback p message s :
  samePlayback s (handleToolCall p message s).
Proof.
  unfold handleToolCall.
  destruct (toolCall message) as [tc|]; [|apply samePlayback_refl].
  pose proof (functionCalls_playback (functionCalls tc)
                (emit (ConsoleLog "Tool Call:") s) []) as H1.
  destruct (fold_left functionCallBody (functionCalls tc)
              (emit (ConsoleLog "Tool Call:") s, [])) as [s1 rs1].
  exact H1.
Qed.

(** The state in which part 3 begins. *)
Lemma beforeAudio_playback p message s :
  samePlayback s (handleToolCall p message (handleTranscription message s)).
Proof.
  eapply samePlayback_trans;
    [apply handleTranscription_playback|apply handleToolCall_playback].
Qed.

Lemma scheduled_app l1 l2 : scheduled (l1 ++ l2) = scheduled l1 ++ scheduled l2.
Proof. unfold scheduled. apply omap_app. Qed.

Lemma scheduled_toolCallEffects p message : scheduled (toolCallEffects p message) = [].
Proof. unfold toolCallEffects. now destruct (toolCall message). Qed.

(** *** Part 3 *)

Lemma handleAudio_outcome now message s :
  AudioOutcome env now message s (handleAudio env now message s).
Proof.
  unfold handleAudio.
  destruct (base64Audio message) as [[|c b]|] eqn:Hb;
    [constructor; auto | | constructor; auto].
  destruct (outputAudioContextRef s) as [ctx|] eqn:Hctx;
    [|constructor; auto].
  destruct (decodeFragment env ctx (String c b)) as [audioBuffer|] eqn:Hdec.
  - simpl. eapply audio_scheduled; eauto; discriminate.
  - eapply audio_dropped; eauto; discriminate.
Qed.


(** A message whose audio fragment decodes, with an output context at
    hand: one buffer is started. *)
Lemma onmessage_schedules p now message b64 ctx audioBuffer s :
  base64Audio message = Some b64 ->
  b64 <> "" ->
  outputAudioContextRef s = Some ctx ->
  decodeFragment env ctx b64 = Some audioBuffer ->
  scheduled (newEffects s (fst (onmessage env p now message s)))
  = [(Z.max (nextStartTimeRef s) now, duration audioBuffer)].
Proof.
  intros Hb Hne Hctx Hdec. unfold onmessage.
  set (s2 := handleToolCall p message (handleTranscription message s)).
  destruct (beforeAudio_playback p message s) as (Hn2 & Hc2 & _).
  fold s2 in Hn2, Hc2.
  assert (He2 : effects s2 = effects s ++ toolCallEffects p message).
  { unfold s2. now rewrite handleToolCall_effects, handleTranscription_effects. }
  destruct (handleAudio_outcome now message s2)
    as [[Habs|[Habs|Habs]] | b ctx' Hb' _ Hctx' Hdec'
        | b ctx' ab s' Hb' _ Hctx' Hdec' He _ _ _];
    try congruence.
  cbn [fst].
  assert (b = b64) by congruence. subst b.
  assert (ctx' = ctx) by congruence. subst ctx'.
  assert (ab = audioBuffer) by congruence. subst ab.
  rewrite He2, <- app_assoc in He. rewrite (newEffects_app s s' _ He).
  rewrite scheduled_app, scheduled_toolCallEffects, Hn2. reflexivity.
Qed.





(** C8, as the code has it: a message whose audio fragment does not decode.
    Parts 1 and 2 have run as for any message; part 3 starts no buffer,
    writes nothing to the console and leaves the set of sources and all the
    rest as it was, except that the cursor has been raised to the clock
    reading where that is later (no duration is added); the handler ends by
    rejecting; and a fragment that comes next and decodes is scheduled as
    usual. *)
Theorem undecodable_fragment_is_dropped p now (message : LiveServerMessage)
    (b64 : string) (ctx : nat) (s : State) :
  base64Audio message = Some b64 ->
  b64 <> "" ->
  outputAudioContextRef s = Some ctx ->
  decodeFragment env ctx b64 = None ->
  let s2 := handleToolCall p message (handleTranscription message s) in
  let r := onmessage env p now message s in
  snd r = Throw
  /\ fst r = set_nextStartTimeRef (Z.max (nextStartTimeRef s) now) s2
  /\ scheduled (newEffects s (fst r)) = []
  /\ newEffects s2 (fst r) = []
  /\ sourcesRef (fst r) = sourcesRef s
  /\ (forall now' b64' audioBuffer,
        b64' <> "" ->
        decodeFragment env ctx b64' = Some audioBuffer ->
        scheduled (newEffects (fst r)
                     (fst (onmessage env p now' (audioMessage b64') (fst r))))
        = [(Z.max (Z.max (nextStartTimeRef s) now) now', duration audioBuffer)]).
Proof.
  intros Hb Hne Hctx Hdec. cbv zeta.
  set (s2 := handleToolCall p message (handleTranscription message s)).
  destruct (beforeAudio_playback p message s) as (Hn2 & Hc2 & Hs2).
  fold s2 in Hn2, Hc2, Hs2.
  assert (He2 : effects s2 = effects s ++ toolCallEffects p message).
  { unfold s2. now rewrite handleToolCall_effects, handleTranscription_effects. }
  set (s3 := set_nextStartTimeRef (Z.max (nextStartTimeRef s) now) s2).
  assert (Hr : onmessage env p now message s = (s3, Throw)).
  { unfold onmessage. fold s2.
    destruct (handleAudio_outcome now message s2)
      as [[Habs|[Habs|Habs]] | b ctx' Hb' _ Hctx' Hdec'
          | b ctx' ab s' Hb' _ Hctx' Hdec' _ _ _ _];
      try congruence.
    unfold s3. now rewrite Hn2. }
  rewrite Hr. cbn [fst snd].
  split; [reflexivity|]. split; [reflexivity|].
  split; [rewrite (newEffects_app s s3 _ He2); apply scheduled_toolCallEffects|].
  split; [apply newEffects_app; simpl; now rewrite app_nil_r|].
  split; [exact Hs2|].
  intros now' b64' ab Hne' Hdec2.
  apply (onmessage_schedules p now' (audioMessage b64') b64' ctx ab s3);
    [reflexivity|exact Hne'| |exact Hdec2].
  unfold s3. simpl. now rewrite Hc2.
Qed.

End Playback.

(** ** The session lifecycle *)

Section Lifecycle.

Variable env : Env.

Lemma filter_acquisition_stops (l : list AudioBufferSourceNode) :
  List.filter isAcquisition (map (fun n => NodeStop (nodeId n)) l) = [].
Proof. induction l as [|n l IH]; simpl; auto. Qed.

(** The loop over the sources, when all of them were started: every one
    is stopped, in the order of the set. *)
Lemma stopAll_started l : forall s,
  Forall started l ->
  stopAll l s
  = (set_effects (effects s ++ map (fun n => NodeStop (nodeId n)) l) s, Normal).
Proof.
  induction l as [|n l IH]; intros s Hall.
  - destruct s. unfold set_effects. simpl. now rewrite app_nil_r.
  - inversion Hall as [|? ? Hn Hl]; subst. simpl.
    destruct (startTime n) eqn:E; [|now elim Hn].
    rewrite IH by assumption. destruct s. unfold set_effects, emit. simpl.
    now rewrite <- app_assoc.
Qed.

(** The loop over the sources in general: it only stops nodes. *)
Lemma stopAll_frame l : forall s,
  exists es,
    fst (stopAll l s) = set_effects (effects s ++ es) s
    /\ List.filter isAcquisition es = [].
Proof.
  induction l as [|n l IH]; intros s.
  - exists []. destruct s. unfold set_effects. simpl. now rewrite app_nil_r.
  - simpl. destruct (startTime n).
    + destruct (IH (emit (NodeStop (nodeId n)) s)) as (es & He & Hf).
      exists (NodeStop (nodeId n) :: es). rewrite He. split; [|exact Hf].
      destruct s. unfold set_effects, emit. simpl. now rewrite <- app_assoc.
    + exists []. destruct s. unfold set_effects. simpl. now rewrite app_nil_r.
Qed.

(** [cleanup] on a state whose sources were all started: it returns, and
    leaves the state torn down; what it does to the outside world are
    releases only, and there are none when nothing is held. *)
Lemma cleanup_started s :
  Forall started (sourcesRef s) ->
  exists released,
    cleanup env s = (tornDown s released, Normal)
    /\ List.filter isAcquisition released = []
    /\ (streamRef s = None -> inputAudioContextRef s = None ->
        outputAudioContextRef s = None -> sessionRef s = None ->
        sourcesRef s = [] -> released = []).
Proof.
  intros Hall. unfold cleanup.
  destruct s as [cs dt ex hi an ic oc st se nx so ci fl ef ni]. simpl in *.
  destruct st as [st|], ic as [ic|], oc as [oc|], se as [se|];
    simpl; try destruct (closeThrows env se); simpl;
    rewrite stopAll_started by exact Hall; simpl; unfold tornDown; simpl;
    rewrite <- ?app_assoc; simpl;
    (eexists; split; [reflexivity|]; split;
     [simpl; apply filter_acquisition_stops
     |intros; subst; try discriminate; reflexivity]).
Qed.

(** [cleanup] in general acquires nothing. *)
Lemma cleanup_acquires_nothing s :
  List.filter isAcquisition (newEffects s (fst (cleanup env s))) = [].
Proof.
  unfold cleanup.
  destruct s as [cs dt ex hi an ic oc st se nx so ci fl ef ni]. simpl.
  destruct st as [st|], ic as [ic|], oc as [oc|], se as [se|];
    simpl; try destruct (closeThrows env se); simpl;
    match goal with
    | |- context [stopAll so ?s0] =>
        destruct (stopAll_frame so s0) as (es & He & Hf);
        destruct (stopAll so s0) as [s1 [|]]; simpl in He; subst s1;
        unfold newEffects; simpl;
        rewrite <- ?app_assoc, drop_app_length, ?filter_app; simpl;
        exact Hf
    end.
Qed.

End Lifecycle.

(** ** What every reachable state satisfies *)

Section Reachability.

Variable env : Env.

Lemma invariant_frame s s' :
  history s' = history s -> sourcesRef s' = sourcesRef s ->
  invariant s -> invariant s'.
Proof. unfold invariant. intros -> ->. auto. Qed.

Lemma handleTranscription_invariant message s :
  invariant s -> invariant (handleTranscription message s).
Proof.
  apply invariant_frame; unfold handleTranscription;
    destruct (inputTr message ?. text) as [[|c t]|]; try reflexivity;
    destruct (isResultFinalRef s); reflexivity.
Qed.

Lemma functionCallBody_invariant s rs fc :
  invariant s -> invariant (fst (functionCallBody (s, rs) fc)).
Proof.
  intros [Hh Hs]. unfold functionCallBody, invariant.
  destruct (String.eqb (fc_name fc) "displayResult"); simpl.
  - split; [|exact Hs].
    change (length (take 10
              (historyEntry (currentInputRef s)
                 (default JUndefined (fc_args fc !! "text")) :: history s)) <= 10).
    rewrite length_take. lia.
  - destruct (String.eqb (fc_name fc) "resetApp"); simpl; split; auto; lia.
Qed.

Lemma functionCalls_invariant calls : forall s rs,
  invariant s -> invariant (fst (fold_left functionCallBody calls (s, rs))).
Proof.
  induction calls as [|fc calls IH]; intros s rs Hinv; [exact Hinv|].
  change (fold_left functionCallBody (fc :: calls) (s, rs))
    with (fold_left functionCallBody calls (functionCallBody (s, rs) fc)).
  pose proof (functionCallBody_invariant s rs fc Hinv) as H1.
  destruct (functionCallBody (s, rs) fc) as [s1 rs1]. now apply IH.
Qed.

Lemma handleToolCall_invariant p message s :
  invariant s -> invariant (handleToolCall p message s).
Proof.
  intros Hinv. unfold handleToolCall.
  destruct (toolCall message) as [tc|]; [|exact Hinv].
  pose proof (functionCalls_invariant (functionCalls tc)
                (emit (ConsoleLog "Tool Call:") s) [] Hinv) as H1.
  destruct (fold_left functionCallBody (functionCalls tc)
              (emit (ConsoleLog "Tool Call:") s, [])) as [s1 rs1].
  exact H1.
Qed.

Lemma add_started n l :
  started n -> Forall started l -> Forall started (NodeSet.add n l).
Proof.
  intros Hn Hl. unfold NodeSet.add. destruct (NodeSet.has n l); [exact Hl|].
  apply Forall_app. split; [exact Hl|]. constructor; [exact Hn|constructor].
Qed.

Lemma delete_started id l :
  Forall started l -> Forall started (NodeSet.delete id l).
Proof.
  intros Hl. unfold NodeSet.delete. rewrite List.Forall_forall in *.
  intros n Hin. apply List.filter_In in Hin. apply Hl, Hin.
Qed.

Lemma handleAudio_invariant now message s :
  invariant s -> invariant (fst (handleAudio env now message s)).
Proof.
  intros [Hh Hs]. unfold handleAudio.
  destruct (base64Audio message) as [[|c b]|]; try (split; assumption).
  destruct (outputAudioContextRef s) as [ctx|]; try (split; assumption).
  destruct (decodeFragment env ctx (String c b)) as [audioBuffer|];
    simpl; split; try assumption.
  apply add_started; [discriminate|exact Hs].
Qed.

Lemma onmessage_invariant p now message s :
  invariant s -> invariant (fst (onmessage env p now message s)).
Proof.
  intros Hinv. unfold onmessage.
  now apply handleAudio_invariant, handleToolCall_invariant,
    handleTranscription_invariant.
Qed.

Lemma cleanup_invariant s : invariant s -> invariant (fst (cleanup env s)).
Proof.
  intros [Hh Hs].
  destruct (cleanup_started env s Hs) as (released & Hc & _).
  rewrite Hc. split; [exact Hh|constructor].
Qed.

Lemma connect_invariant s : invariant s -> invariant (connect env s).
Proof.
  apply invariant_frame; unfold connect, connect_catch;
    destruct (API_KEY env) as [[|c k]|]; reflexivity.
Qed.

Lemma step_invariant e s : invariant s -> invariant (step env e s).
Proof.
  intros Hinv. destruct e; simpl.
  - unfold toggleConnection. destruct (connectionState s);
      (apply cleanup_invariant || apply connect_invariant); exact Hinv.
  - destruct Hinv as [_ Hs]. split; [simpl; lia|exact Hs].
  - now apply cleanup_invariant.
  - exact Hinv.
  - exact Hinv.
  - exact Hinv.
  - now apply onmessage_invariant.
  - exact Hinv.
  - unfold onerror. now apply cleanup_invariant.
  - destruct Hinv as [Hh Hs]. split; [exact Hh|]. simpl.
    now apply delete_started.
Qed.

Lemma reachable_invariant s : reachable env s -> invariant s.
Proof.
  induction 1 as [|e s _ IH].
  - split; [simpl; lia|constructor].
  - now apply step_invariant.
Qed.

Lemma run_reachable events : forall s,
  reachable env s -> reachable env (run env events s).
Proof.
  induction events as [|e events IH]; intros s Hs; [exact Hs|].
  apply IH. now constructor.
Qed.

(** C6: the history of a reachable state has at most ten entries, and a
    [displayResult] call, in whatever state it is run, puts its entry at
    the head and keeps the first ten entries: the result has at most ten;
    below ten entries all the old ones stay behind the new one, and at ten
    the last (the oldest) is dropped. *)
Theorem history_is_bounded (s : State) (rs : list FunctionResponse)
    (fc : FunctionCall) :
  (reachable env s -> length (history s) <= 10)
  /\ (fc_name fc = "displayResult" ->
      let entry :=
        historyEntry (currentInputRef s) (default JUndefined (fc_args fc !! "text")) in
      let s' := fst (functionCallBody (s, rs) fc) in
      length (history s') <= 10
      /\ head (history s') = Some entry
      /\ (length (history s) < 10 -> history s' = entry :: history s)
      /\ (length (history s) = 10 -> history s' = entry :: removelast (history s))).
Proof.
  split.
  - intros Hr. apply (reachable_invariant s Hr).
  - intros Hname.
    destruct (functionCallBody_displayResult s rs fc Hname) as (_ & H2 & _).
    cbv zeta. rewrite H2.
    split; [rewrite length_take; lia|]. split; [reflexivity|]. split.
    + intros Hlt. change (take 10 (?x :: ?l)) with (x :: take 9 l).
      now rewrite take_ge by lia.
    + intros Heq. change (take 10 (?x :: ?l)) with (x :: take 9 l).
      rewrite removelast_firstn_len, Heq. reflexivity.
Qed.


(** C9, as the code has it: [connect] carries no guard of its own; the
    gate is in [toggleConnection].  In [CONNECTED] or [CONNECTING],
    [toggleConnection] does not run [connect] but [cleanup], and acquires
    nothing.  In [DISCONNECTED] or [ERROR] it runs [connect], which in
    either state moves to [CONNECTING] and, the key being there, creates the
    two audio contexts and asks for the microphone. *)
Theorem toggleConnection_gates_connect (s : State) :
  (connectionState s = CONNECTED \/ connectionState s = CONNECTING ->
     toggleConnection env s = cleanup env s
     /\ List.filter isAcquisition (newEffects s (fst (toggleConnection env s))) = [])
  /\ (connectionState s = DISCONNECTED \/ connectionState s = ERROR ->
        toggleConnection env s = (connect env s, Normal))
  /\ (forall key, API_KEY env = Some key -> key <> "" ->
        connectionState (connect env s) = CONNECTING
        /\ newEffects s (connect env s)
           = [NewAudioContext (nextId s) 16000;
              NewAudioContext (S (nextId s)) 24000;
              GetUserMedia]).
Proof.
  split; [|split].
  - intros [H|H]; unfold toggleConnection; rewrite H;
      (split; [reflexivity|apply cleanup_acquires_nothing]).
  - intros [H|H]; unfold toggleConnection; rewrite H; reflexivity.
  - intros key Hkey Hne. unfold connect. rewrite Hkey.
    destruct key as [|c k]; [congruence|]. simpl. split; [reflexivity|].
    unfold newEffects. simpl. rewrite <- !app_assoc. apply drop_app_length.
Qed.

End Reachability.

(** * The properties at work on the sample data *)

(** C3 on the fragments "3", "+", "5" from the start. *)
Lemma expression_is_concatenation_sample :
  expression Sample.typed35 = "3+5"
  /\ currentInputRef Sample.typed35 = "3+5"
  /\ isResultFinalRef Sample.typed35 = false.
Proof.
  apply (expression_is_concatenation Sample.env 0
           (map (fun t => (0%Z, fragmentMessage t)) ["3"; "+"; "5"]) initialState);
    try reflexivity.
  repeat constructor.
Defined.

(** C4 on the fragment "7" after the result of "3+5": "7", not "3+57". *)
Lemma fragment_after_result_sample :
  let s' := fst (onmessage Sample.env 0 0 (fragmentMessage "7") Sample.finalized35) in
  isResultFinalRef Sample.finalized35 = true
  /\ expression Sample.finalized35 = "3+5"
  /\ currentInputRef s' = "7" /\ expression s' = "7" /\ isResultFinalRef s' = false.
Proof.
  split; [reflexivity|]. split; [reflexivity|].
  apply (fragment_after_result_starts_afresh Sample.env 0 0 (fragmentMessage "7")
           Sample.finalized35); [reflexivity|reflexivity|discriminate].
Defined.

(** C4 as it was stated fails on a fragment with an empty text: after the
    result of "3+5" the claim would have the displayed expression cleared and
    the flag lowered, and the handler leaves both as they are. *)
Lemma empty_fragment_after_result_is_ignored :
  let s := Sample.finalized35 in
  let s' := fst (onmessage Sample.env 0 0 (fragmentMessage "") s) in
  isResultFinalRef s = true
  /\ expression s = "3+5"
  /\ expression s' = "3+5"
  /\ isResultFinalRef s' = true
  /\ ~ (currentInputRef s' = "" /\ expression s' = "" /\ isResultFinalRef s' = false).
Proof.
  repeat split. intros (_ & _ & H). vm_compute in H. discriminate H.
Qed.

(** C2 on a batch of three calls, one of them with an unknown name. *)
Lemma one_acknowledgement_per_call_sample :
  let calls := [Sample.displayResult "call-1" "8";
                Sample.unknownCall "call-2";
                Sample.resetApp "call-3"] in
  let s' := fst (onmessage Sample.env 4 0 (toolCallMessage calls) Sample.typed35) in
  exists acks,
    toolResponses (newEffects Sample.typed35 s') = [acks]
    /\ length acks = 3
    /\ Forall2
         (fun fc ack =>
            fr_id ack = fc_id fc /\ fr_name ack = fc_name fc /\ fr_result ack = "ok")
         calls acks.
Proof.
  exact (one_acknowledgement_per_call Sample.env 4 0
           (toolCallMessage [Sample.displayResult "call-1" "8";
                             Sample.unknownCall "call-2";
                             Sample.resetApp "call-3"])
           {| functionCalls := [Sample.displayResult "call-1" "8";
                                Sample.unknownCall "call-2";
                                Sample.resetApp "call-3"] |}
           Sample.typed35 eq_refl).
Defined.





(** C8 on a fragment that does not decode, handled at the clock reading 5
    in an open session whose cursor is at 0. *)
Lemma undecodable_fragment_sample :
  let r := onmessage Sample.env 4 5 (audioMessage "bad") Sample.connected in
  snd r = Throw
  /\ fst r = set_nextStartTimeRef 5 Sample.connected
  /\ scheduled (newEffects Sample.connected (fst r)) = []
  /\ newEffects Sample.connected (fst r) = []
  /\ sourcesRef (fst r) = sourcesRef Sample.connected
  /\ scheduled (newEffects (fst r)
                  (fst (onmessage Sample.env 4 7 (audioMessage "AAAA") (fst r))))
     = [(7, 10)%Z].
Proof.
  destruct (undecodable_fragment_is_dropped Sample.env 4 5 (audioMessage "bad")
              "bad" 1 Sample.connected)
    as (H1 & H2 & H3 & H4 & H5 & H6);
    [reflexivity|discriminate|reflexivity|reflexivity|].
  split; [exact H1|]. split; [exact H2|]. split; [exact H3|]. split; [exact H4|].
  split; [exact H5|].
  apply (H6 7%Z "AAAA" {| duration := 10 |}); [discriminate|reflexivity].
Defined.

(** C8 as it was stated fails: on that fragment the handler writes nothing
    to the console, and the cursor, at 0 before, is at 5 after. *)
Lemma undecodable_fragment_moves_cursor :
  let s := Sample.connected in
  let r := onmessage Sample.env 4 5 (audioMessage "bad") s in
  decodeFragment Sample.env 1 "bad" = None
  /\ outputAudioContextRef s = Some 1
  /\ List.filter isConsole (newEffects s (fst r)) = []
  /\ nextStartTimeRef s = 0%Z
  /\ nextStartTimeRef (fst r) = 5%Z
  /\ nextStartTimeRef (fst r) <> nextStartTimeRef s.
Proof. repeat split; discriminate. Qed.

(** C6 on a history of ten entries: it is reachable and within the bound,
    and an eleventh result drops the oldest entry. *)
Lemma history_is_bounded_sample :
  let s' := fst (functionCallBody (Sample.fullHistory, [])
                   (Sample.displayResult "call" "11")) in
  length (history Sample.fullHistory) = 10
  /\ length (history Sample.fullHistory) <= 10
  /\ length (history s') <= 10
  /\ head (history s') = Some "3+5 = 11"
  /\ history s' = "3+5 = 11" :: removelast (history Sample.fullHistory)
  /\ last (history Sample.fullHistory) = Some "3+5 = 1"
  /\ last (history s') = Some "3+5 = 2".
Proof.
  destruct (history_is_bounded Sample.env Sample.fullHistory []
              (Sample.displayResult "call" "11")) as [Hreach Hcall].
  split; [reflexivity|]. split.
  - apply Hreach. unfold Sample.fullHistory, Sample.typed35, deliver.
    apply run_reachable, run_reachable, reachable_initial.
  - destruct (Hcall eq_refl) as (H1 & H2 & _ & H4).
    split; [exact H1|]. split; [exact H2|]. split; [exact (H4 eq_refl)|].
    split; reflexivity.
Defined.


(** C9 on an open session, where the toggle tears down, and on a failed
    attempt, where it connects again. *)
Lemma toggleConnection_gates_connect_sample :
  (connectionState Sample.connected = CONNECTED
   /\ toggleConnection Sample.env Sample.connected = cleanup Sample.env Sample.connected
   /\ List.filter isAcquisition
        (newEffects Sample.connected (fst (toggleConnection Sample.env Sample.connected)))
      = [])
  /\ (connectionState Sample.failedConnect = ERROR
      /\ toggleConnection Sample.env Sample.failedConnect
         = (connect Sample.env Sample.failedConnect, Normal)
      /\ connectionState (connect Sample.env Sample.failedConnect) = CONNECTING
      /\ newEffects Sample.failedConnect (connect Sample.env Sample.failedConnect)
         = [NewAudioContext 2 16000; NewAudioContext 3 24000; GetUserMedia]).
Proof.
  destruct (toggleConnection_gates_connect Sample.env Sample.connected) as [Hon _].
  destruct (toggleConnection_gates_connect Sample.env Sample.failedConnect)
    as (_ & Hoff & Hconnect).
  split.
  - split; [reflexivity|]. apply Hon. left. reflexivity.
  - split; [reflexivity|]. split; [apply Hoff; right; reflexivity|].
    apply (Hconnect "key"); [reflexivity|discriminate].
Defined.

(** C9 as it was stated fails: in [ERROR], a state other than
    [DISCONNECTED], [connect] is what the toggle runs, and it is no no-op:
    the state moves to [CONNECTING] and two audio contexts are created. *)
Lemma connect_in_error_state_connects :
  let s := Sample.failedConnect in
  connectionState s = ERROR
  /\ connectionState s <> DISCONNECTED
  /\ fst (toggleConnection Sample.env s) = connect Sample.env s
  /\ connect Sample.env s <> s
  /\ connectionState (connect Sample.env s) = CONNECTING
  /\ List.filter isAcquisition (newEffects s (connect Sample.env s))
     = [NewAudioContext 2 16000; NewAudioContext 3 24000; GetUserMedia].
Proof.
  repeat split; discriminate.
Qed.

(** * Beyond the claims *)

(** ** The dispatcher: reset, unknown calls, batches of results *)

Section DispatcherMore.

Variable env : Env.

Lemma eqb_displayResult fc : unrecognized fc -> String.eqb (fc_name fc) "displayResult" = false.
Proof. intros [H _]. now apply String.eqb_neq. Qed.

Lemma eqb_resetApp fc : unrecognized fc -> String.eqb (fc_name fc) "resetApp" = false.
Proof. intros [_ H]. now apply String.eqb_neq. Qed.

Lemma functionCallBody_unrecognized s rs fc :
  unrecognized fc -> fst (functionCallBody (s, rs) fc) = s.
Proof.
  intros H. unfold functionCallBody.
  now rewrite (eqb_displayResult fc H), (eqb_resetApp fc H).
Qed.

Lemma functionCalls_unrecognized calls : forall s rs,
  Forall unrecognized calls -> fst (fold_left functionCallBody calls (s, rs)) = s.
Proof.
  induction calls as [|fc calls IH]; intros s rs Hall; [reflexivity|].
  inversion Hall as [|? ? Hfc Hrest]; subst.
  change (fold_left functionCallBody (fc :: calls) (s, rs))
    with (fold_left functionCallBody calls (functionCallBody (s, rs) fc)).
  pose proof (functionCallBody_unrecognized s rs fc Hfc) as H1.
  destruct (functionCallBody (s, rs) fc) as [s1 rs1]. simpl in H1. subst s1.
  now apply IH.
Qed.

Lemma functionCallBody_resetApp s rs fc :
  fc_name fc = "resetApp" -> isReset (fst (functionCallBody (s, rs) fc)).
Proof.
  intros H. unfold functionCallBody. rewrite H. simpl. repeat split.
Qed.

Lemma fold_left_snoc calls fc acc :
  fold_left functionCallBody (calls ++ [fc]) acc
  = functionCallBody (fold_left functionCallBody calls acc) fc.
Proof. now rewrite fold_left_app. Qed.

(** A batch in which no call bears a known name changes nothing but the
    trace: the state after the handler is the state before it with the log
    line and the one tool response added. *)
Theorem unrecognized_batch_changes_only_the_trace p (message : LiveServerMessage)
    (tc : LiveServerToolCall) (s : State) :
  toolCall message = Some tc ->
  Forall unrecognized (functionCalls tc) ->
  handleToolCall p message s
  = set_effects
      (effects s ++ [ConsoleLog "Tool Call:";
                     SendToolResponse p (map acknowledgement (functionCalls tc))])
      s.
Proof.
  intros Htc Hall. unfold handleToolCall. rewrite Htc.
  pose proof (functionCalls_unrecognized (functionCalls tc)
                (emit (ConsoleLog "Tool Call:") s) [] Hall) as H1.
  pose proof (functionCalls_loop (functionCalls tc)
                (emit (ConsoleLog "Tool Call:") s) []) as [H2 _].
  destruct (fold_left functionCallBody (functionCalls tc)
              (emit (ConsoleLog "Tool Call:") s, [])) as [s1 rs1].
  simpl in H1, H2. subst s1 rs1.
  destruct s. unfold set_effects, emit. simpl. now rewrite <- app_assoc.
Qed.

(** A batch with a [resetApp] call after which only unknown calls follow
    ends in the reset display, whatever the state before and whatever the
    calls before it. *)
Theorem resetApp_resets_whatever_came_before (before after : list FunctionCall)
    (fc : FunctionCall) (s : State) (rs : list FunctionResponse) :
  fc_name fc = "resetApp" ->
  Forall unrecognized after ->
  isReset (fst (fold_left functionCallBody (before ++ fc :: after) (s, rs))).
Proof.
  intros Hname Hafter.
  rewrite fold_left_app.
  destruct (fold_left functionCallBody before (s, rs)) as [s1 rs1].
  change (fold_left functionCallBody (fc :: after) (s1, rs1))
    with (fold_left functionCallBody after (functionCallBody (s1, rs1) fc)).
  pose proof (functionCallBody_resetApp s1 rs1 fc Hname) as H1.
  destruct (functionCallBody (s1, rs1) fc) as [s2 rs2].
  now rewrite functionCalls_unrecognized.
Qed.

(** The [resetApp] tool call and the reset button do the same to the
    state, and neither touches the connection, the handles, the playback or
    the trace. *)
Theorem resetApp_is_manual_reset (fc : FunctionCall) (s : State)
    (rs : list FunctionResponse) :
  fc_name fc = "resetApp" ->
  let s' := handleManualReset s in
  fst (functionCallBody (s, rs) fc) = s'
  /\ isReset s'
  /\ connectionState s' = connectionState s
  /\ analyser s' = analyser s
  /\ (streamRef s' = streamRef s /\ sessionRef s' = sessionRef s
      /\ inputAudioContextRef s' = inputAudioContextRef s
      /\ outputAudioContextRef s' = outputAudioContextRef s)
  /\ (sourcesRef s' = sourcesRef s /\ nextStartTimeRef s' = nextStartTimeRef s)
  /\ effects s' = effects s.
Proof.
  intros Hname. cbv zeta. split.
  - unfold functionCallBody. rewrite Hname. reflexivity.
  - repeat split.
Qed.




End DispatcherMore.

(** ** The accumulator across results *)

Section TranscriptionMore.

Variable env : Env.









End TranscriptionMore.

(** ** The lifecycle: what is released, what is kept *)

Section LifecycleMore.

Variable env : Env.

(** [cleanup], when all sources were started, step by step. *)
Lemma cleanup_exact s :
  Forall started (sourcesRef s) ->
  cleanup env s = (tornDown s (releasesOf env s), Normal).
Proof.
  intros Hall. unfold cleanup, releasesOf.
  destruct s as [cs dt ex hi an ic oc st se nx so ci fl ef ni]. simpl in *.
  destruct st as [st|], ic as [ic|], oc as [oc|], se as [se|];
    simpl; try destruct (closeThrows env se); simpl;
    rewrite stopAll_started by exact Hall; simpl; unfold tornDown; simpl;
    rewrite <- ?app_assoc; reflexivity.
Qed.

(** [cleanup] in any state, thrown or not: display, cursor and counter are
    not touched. *)
Lemma cleanup_keeps s :
  let s' := fst (cleanup env s) in
  displayText s' = displayText s
  /\ expression s' = expression s
  /\ history s' = history s
  /\ nextStartTimeRef s' = nextStartTimeRef s
  /\ nextId s' = nextId s.
Proof.
  unfold cleanup.
  destruct s as [cs dt ex hi an ic oc st se nx so ci fl ef ni]. simpl.
  destruct st as [st|], ic as [ic|], oc as [oc|], se as [se|];
    simpl; try destruct (closeThrows env se); simpl;
    match goal with
    | |- context [stopAll so ?s0] =>
        destruct (stopAll_frame so s0) as (es & He & _);
        destruct (stopAll so s0) as [s1 [|]]; simpl in He; subst s1;
        simpl; auto
    end.
Qed.

Lemma stopped_stops (l : list AudioBufferSourceNode) :
  stopped (map (fun n => NodeStop (nodeId n)) l) = map nodeId l.
Proof. induction l as [|n l IH]; simpl; [reflexivity|]. now f_equal. Qed.

Lemma stopped_app l1 l2 : stopped (l1 ++ l2) = stopped l1 ++ stopped l2.
Proof. unfold stopped. apply omap_app. Qed.

Lemma stopped_releasesOf s : stopped (releasesOf env s) = map nodeId (sourcesRef s).
Proof.
  unfold releasesOf. rewrite !stopped_app, stopped_stops.
  destruct (streamRef s), (inputAudioContextRef s), (outputAudioContextRef s),
    (sessionRef s) as [p|]; simpl; try destruct (closeThrows env p); reflexivity.
Qed.

End LifecycleMore.

(** ** Handles and the set of sources *)

Section Allocation.

Variable env : Env.

Lemma wellAllocated_frame s s' :
  sourcesRef s' = sourcesRef s -> nextId s <= nextId s' ->
  wellAllocated s -> wellAllocated s'.
Proof.
  unfold wellAllocated. intros -> Hle [Hlt Hnd]. split; [|exact Hnd].
  eapply Forall_impl; [exact Hlt|]. simpl. intros n Hn. lia.
Qed.

Lemma handleTranscription_nextId message s :
  nextId (handleTranscription message s) = nextId s.
Proof.
  unfold handleTranscription.
  destruct (inputTr message ?. text) as [[|c t]|]; try reflexivity.
  destruct (isResultFinalRef s); reflexivity.
Qed.

Lemma functionCallBody_nextId s rs fc :
  nextId (fst (functionCallBody (s, rs) fc)) = nextId s.
Proof.
  unfold functionCallBody.
  destruct (String.eqb (fc_name fc) "displayResult"); [reflexivity|].
  destruct (String.eqb (fc_name fc) "resetApp"); reflexivity.
Qed.

Lemma functionCalls_nextId calls : forall s rs,
  nextId (fst (fold_left functionCallBody calls (s, rs))) = nextId s.
Proof.
  induction calls as [|fc calls IH]; intros s rs; [reflexivity|].
  change (fold_left functionCallBody (fc :: calls) (s, rs))
    with (fold_left functionCallBody calls (functionCallBody (s, rs) fc)).
  pose proof (functionCallBody_nextId s rs fc) as H1.
  destruct (functionCallBody (s, rs) fc) as [s1 rs1]. simpl in H1.
  now rewrite IH.
Qed.

Lemma handleToolCall_nextId p message s :
  nextId (handleToolCall p message s) = nextId s.
Proof.
  unfold handleToolCall. destruct (toolCall message) as [tc|]; [|reflexivity].
  pose proof (functionCalls_nextId (functionCalls tc)
                (emit (ConsoleLog "Tool Call:") s) []) as H1.
  destruct (fold_left functionCallBody (functionCalls tc)
              (emit (ConsoleLog "Tool Call:") s, [])) as [s1 rs1].
  exact H1.
Qed.

(** A node made with the counter is not in a set of older nodes. *)
Lemma has_fresh (n : AudioBufferSourceNode) l :
  Forall (fun m => nodeId m < nodeId n) l -> NodeSet.has n l = false.
Proof.
  unfold NodeSet.has. induction 1 as [|m l Hm Hl IH]; simpl; [reflexivity|].
  rewrite IH, Bool.orb_false_r. apply Nat.eqb_neq. lia.
Qed.

Lemma add_fresh (n : AudioBufferSourceNode) l :
  Forall (fun m => nodeId m < nodeId n) l -> NodeSet.add n l = l ++ [n].
Proof. intros H. unfold NodeSet.add. now rewrite has_fresh. Qed.

Lemma delete_absent id l :
  Forall (fun m => nodeId m <> id) l -> NodeSet.delete id l = l.
Proof.
  unfold NodeSet.delete. induction 1 as [|m l Hm Hl IH]; simpl; [reflexivity|].
  apply Nat.eqb_neq in Hm. rewrite Hm. simpl. now rewrite IH.
Qed.

Lemma delete_last (n : AudioBufferSourceNode) l :
  Forall (fun m => nodeId m < nodeId n) l ->
  NodeSet.delete (nodeId n) (l ++ [n]) = l.
Proof.
  intros H. unfold NodeSet.delete. rewrite List.filter_app. simpl.
  rewrite Nat.eqb_refl. simpl. rewrite app_nil_r.
  apply (delete_absent (nodeId n) l).
  eapply Forall_impl; [exact H|]. simpl. intros m Hm. lia.
Qed.

Lemma delete_wellAllocated id s :
  wellAllocated s -> wellAllocated (onended id s).
Proof.
  unfold wellAllocated, onended. simpl. intros [Hlt Hnd].
  induction (sourcesRef s) as [|m l IH]; [split; constructor|].
  inversion Hlt as [|? ? Hm Hl]; subst. inversion Hnd as [|? ? Hnotin Hnd']; subst.
  destruct (IH Hl Hnd') as [I1 I2]. simpl.
  destruct (negb (Nat.eqb (nodeId m) id)); [|now split].
  split; [now constructor|]. simpl. constructor; [|exact I2].
  intros Hin. apply Hnotin. apply list_elem_of_In, List.in_map_iff in Hin.
  destruct Hin as (x & Hx & Hin). apply List.filter_In in Hin.
  apply list_elem_of_In, List.in_map_iff. exists x. now split.
Qed.

Lemma handleAudio_wellAllocated now message s :
  wellAllocated s -> wellAllocated (fst (handleAudio env now message s)).
Proof.
  intros [Hlt Hnd]. unfold handleAudio.
  destruct (base64Audio message) as [[|c b]|]; try (split; assumption).
  destruct (outputAudioContextRef s) as [ctx|]; try (split; assumption).
  destruct (decodeFragment env ctx (String c b)) as [audioBuffer|];
    simpl; [|split; assumption].
  rewrite add_fresh by exact Hlt. split.
  - apply Forall_app. split.
    + eapply Forall_impl; [exact Hlt|]. simpl. intros n Hn. lia.
    + constructor; [simpl; lia|constructor].
  - simpl. rewrite map_app. simpl. apply NoDup_app. split; [exact Hnd|]. split.
    + intros x Hx Hin. apply list_elem_of_singleton in Hin. subst x.
      apply list_elem_of_In, List.in_map_iff in Hx. destruct Hx as (m & Hm & Hin).
      rewrite List.Forall_forall in Hlt. specialize (Hlt m Hin). lia.
    + constructor; [intros H; inversion H|constructor].
Qed.

Lemma onmessage_wellAllocated p now message s :
  wellAllocated s -> wellAllocated (fst (onmessage env p now message s)).
Proof.
  intros H. unfold onmessage. apply handleAudio_wellAllocated.
  destruct (beforeAudio_playback p message s) as (_ & _ & Hs).
  apply (wellAllocated_frame s); [exact Hs| |exact H].
  now rewrite handleToolCall_nextId, handleTranscription_nextId.
Qed.

Lemma cleanup_wellAllocated s :
  invariant s -> wellAllocated (fst (cleanup env s)).
Proof.
  intros [_ Hs]. rewrite (cleanup_exact env s Hs). split; constructor.
Qed.

Lemma connect_wellAllocated s : wellAllocated s -> wellAllocated (connect env s).
Proof.
  apply wellAllocated_frame; unfold connect, connect_catch;
    destruct (API_KEY env) as [[|c k]|]; simpl; lia || reflexivity.
Qed.

Lemma step_wellAllocated e s :
  invariant s -> wellAllocated s -> wellAllocated (step env e s).
Proof.
  intros Hinv H. destruct e; simpl.
  - unfold toggleConnection. destruct (connectionState s);
      (now apply cleanup_wellAllocated) || (now apply connect_wellAllocated).
  - exact H.
  - now apply cleanup_wellAllocated.
  - revert H. apply wellAllocated_frame; simpl; [reflexivity|lia].
  - exact H.
  - exact H.
  - now apply onmessage_wellAllocated.
  - exact H.
  - unfold onerror. apply cleanup_wellAllocated.
    revert Hinv. now apply invariant_frame.
  - now apply delete_wellAllocated.
Qed.

Lemma reachable_wellAllocated s : reachable env s -> wellAllocated s.
Proof.
  induction 1 as [|e s Hr IH]; [split; constructor|].
  apply step_wellAllocated; [exact (reachable_invariant env s Hr)|exact IH].
Qed.


(** In every reachable state, when the node that a message has started
    tells that it has ended, the set of sources is again what it was before
    the message. *)
Theorem ended_undoes_scheduling p now (message : LiveServerMessage)
    (b64 : string) (ctx : nat) (audioBuffer : AudioBuffer) (s : State) :
  reachable env s ->
  base64Audio message = Some b64 ->
  b64 <> "" ->
  outputAudioContextRef s = Some ctx ->
  decodeFragment env ctx b64 = Some audioBuffer ->
  sourcesRef (onended (nextId s) (fst (onmessage env p now message s)))
  = sourcesRef s.
Proof.
  intros Hr Hb Hne Hctx Hdec.
  destruct (reachable_wellAllocated s Hr) as [Hlt _].
  unfold onmessage.
  set (s2 := handleToolCall p message (handleTranscription message s)).
  destruct (beforeAudio_playback p message s) as (Hn2 & Hc2 & Hs2).
  fold s2 in Hn2, Hc2, Hs2.
  assert (Hi2 : nextId s2 = nextId s).
  { unfold s2. now rewrite handleToolCall_nextId, handleTranscription_nextId. }
  unfold handleAudio. rewrite Hb, Hc2, Hctx.
  destruct b64 as [|c b]; [congruence|]. rewrite Hdec. simpl.
  rewrite Hs2, Hn2, Hi2.
  rewrite add_fresh by exact Hlt.
  exact (delete_last {| nodeId := nextId s; buffer := Some audioBuffer;
                        startTime := Some (Z.max (nextStartTimeRef s) now) |}
           (sourcesRef s) Hlt).
Qed.

End Allocation.

(** ** The lifecycle: error paths, remote close, teardown *)

Section LifecycleTheorems.

Variable env : Env.


(** A close of the session from the other side only logs and sets
    [DISCONNECTED]: stream, contexts, session and sources stay held; the
    button then connects anew on top of them, and up to there nothing has
    been released. *)
Theorem onclose_releases_nothing (s : State) :
  let s1 := onclose s in
  connectionState s1 = DISCONNECTED
  /\ newEffects s s1 = [ConsoleLog "Gemini Live Closed"]
  /\ (streamRef s1 = streamRef s /\ sessionRef s1 = sessionRef s
      /\ inputAudioContextRef s1 = inputAudioContextRef s
      /\ outputAudioContextRef s1 = outputAudioContextRef s
      /\ sourcesRef s1 = sourcesRef s)
  /\ toggleConnection env s1 = (connect env s1, Normal)
  /\ List.filter isRelease (newEffects s (connect env s1)) = [].
Proof.
  cbv zeta. split; [reflexivity|].
  split; [unfold newEffects, onclose; simpl; apply drop_app_length|].
  split; [repeat split|]. split; [reflexivity|].
  unfold newEffects, connect, connect_catch, onclose.
  destruct (API_KEY env) as [[|c k]|]; simpl;
    rewrite <- ?app_assoc, drop_app_length; reflexivity.
Qed.

Lemma toggle_without_key s :
  API_KEY env = None \/ API_KEY env = Some "" ->
  idle s ->
  fst (toggleConnection env s)
  = setConnectionState ERROR
      (emit (ConsoleError "Connection failed") (setConnectionState CONNECTING s)).
Proof.
  intros Hkey Hidle. unfold toggleConnection, connect, connect_catch.
  destruct Hidle as [H|H]; rewrite H; destruct Hkey as [K|K]; rewrite K; reflexivity.
Qed.

Lemma without_key_attempts (n : nat) : forall s,
  API_KEY env = None \/ API_KEY env = Some "" ->
  idle s ->
  let s' := run env (repeat ToggleConnection (S n)) s in
  connectionState s' = ERROR
  /\ effects s' = effects s ++ repeat (ConsoleError "Connection failed") (S n)
  /\ (streamRef s' = streamRef s /\ sessionRef s' = sessionRef s
      /\ inputAudioContextRef s' = inputAudioContextRef s
      /\ outputAudioContextRef s' = outputAudioContextRef s)
  /\ nextId s' = nextId s.
Proof.
  induction n as [|n IH]; intros s Hkey Hidle; cbv zeta.
  - change (run env (repeat ToggleConnection 1) s) with (fst (toggleConnection env s)).
    rewrite (toggle_without_key s Hkey Hidle). repeat split.
  - change (run env (repeat ToggleConnection (S (S n))) s)
      with (run env (repeat ToggleConnection (S n)) (fst (toggleConnection env s))).
    rewrite (toggle_without_key s Hkey Hidle).
    set (s1 := setConnectionState ERROR
                 (emit (ConsoleError "Connection failed")
                    (setConnectionState CONNECTING s))).
    destruct (IH s1 Hkey) as (H1 & H2 & (H3 & H4 & H5 & H6) & H7); [now right|].
    rewrite H1, H2, H3, H4, H5, H6, H7.
    split; [reflexivity|]. split; [|repeat split].
    unfold s1. simpl. now rewrite <- app_assoc.
Qed.

(** Without a key, pressing the button any number of times from a state
    in which it connects ends in [ERROR] every time: each press logs the
    failure, creates no audio context, asks for no microphone and opens no
    session. *)
Theorem without_key_every_attempt_fails (n : nat) (s : State) :
  API_KEY env = None \/ API_KEY env = Some "" ->
  idle s ->
  let s' := run env (repeat ToggleConnection (S n)) s in
  connectionState s' = ERROR
  /\ newEffects s s' = repeat (ConsoleError "Connection failed") (S n)
  /\ (streamRef s' = streamRef s /\ sessionRef s' = sessionRef s
      /\ inputAudioContextRef s' = inputAudioContextRef s
      /\ outputAudioContextRef s' = outputAudioContextRef s)
  /\ nextId s' = nextId s.
Proof.
  intros Hkey Hidle.
  destruct (without_key_attempts n s Hkey Hidle) as (H1 & H2 & H3 & H4).
  cbv zeta. split; [exact H1|]. split; [exact (newEffects_app _ _ _ H2)|].
  split; assumption.
Qed.

End LifecycleTheorems.

(** ** Connection attempts and what becomes of their handles *)

(** Runs the setters by value, so that a state built from a record shows
    its fields. *)
Ltac fields :=
  cbv [emit alloc setConnectionState setDisplayText setExpression setHistory
       setAnalyser set_inputAudioContextRef set_outputAudioContextRef
       set_streamRef set_sessionRef set_nextStartTimeRef set_sourcesRef
       set_currentInputRef set_isResultFinalRef set_effects
       connectionState displayText expression history analyser
       inputAudioContextRef outputAudioContextRef streamRef sessionRef
       nextStartTimeRef sourcesRef currentInputRef isResultFinalRef effects
       nextId].

Section Attempts.

Variable env : Env.

(** [connect] with a key, written out. *)
Lemma connect_with_key s :
  hasKey env ->
  connect env s
  = mkState CONNECTING (displayText s) (expression s) (history s) (analyser s)
      (Some (nextId s)) (Some (S (nextId s))) (streamRef s) (sessionRef s)
      (nextStartTimeRef s) (sourcesRef s) (currentInputRef s) (isResultFinalRef s)
      (effects s ++ [NewAudioContext (nextId s) 16000;
                     NewAudioContext (S (nextId s)) 24000;
                     GetUserMedia])
      (S (S (nextId s))).
Proof.
  intros (key & Hkey & Hne). unfold connect. rewrite Hkey.
  destruct key as [|c k]; [congruence|]. fields.
  now rewrite <- !app_assoc.
Qed.

Lemma toggle_idle s :
  idle s -> toggleConnection env s = (connect env s, Normal).
Proof. intros [H|H]; unfold toggleConnection; now rewrite H. Qed.

Lemma closedContexts_app l1 l2 :
  closedContexts (l1 ++ l2) = closedContexts l1 ++ closedContexts l2.
Proof. unfold closedContexts. apply omap_app. Qed.

Lemma createdContexts_app l1 l2 :
  createdContexts (l1 ++ l2) = createdContexts l1 ++ createdContexts l2.
Proof. unfold createdContexts. apply omap_app. Qed.

Lemma closedContexts_stops (l : list AudioBufferSourceNode) :
  closedContexts (map (fun n => NodeStop (nodeId n)) l) = [].
Proof. induction l; simpl; auto. Qed.

Lemma createdContexts_stops (l : list AudioBufferSourceNode) :
  createdContexts (map (fun n => NodeStop (nodeId n)) l) = [].
Proof. induction l; simpl; auto. Qed.

Lemma closedContexts_releasesOf s :
  closedContexts (releasesOf env s)
  = match inputAudioContextRef s with Some c => [c] | None => [] end
    ++ match outputAudioContextRef s with Some c => [c] | None => [] end.
Proof.
  unfold releasesOf. rewrite !closedContexts_app, closedContexts_stops.
  destruct (streamRef s), (inputAudioContextRef s), (outputAudioContextRef s),
    (sessionRef s) as [p|]; simpl; try destruct (closeThrows env p); reflexivity.
Qed.

Lemma createdContexts_releasesOf s : createdContexts (releasesOf env s) = [].
Proof.
  unfold releasesOf. rewrite !createdContexts_app, createdContexts_stops.
  destruct (streamRef s), (inputAudioContextRef s), (outputAudioContextRef s),
    (sessionRef s) as [p|]; simpl; try destruct (closeThrows env p); reflexivity.
Qed.



(** An attempt that fails at the microphone, from a reachable state in
    which the button connects: the state is [ERROR], the two contexts that
    the attempt created stay in the refs, and nothing is released.  A second
    attempt puts two new contexts in their place, and the teardown that
    follows closes those two only: the contexts of the failed attempt are
    never closed. *)
Theorem rejected_attempt_leaves_its_contexts_open (s : State) :
  hasKey env ->
  reachable env s ->
  idle s ->
  let n := nextId s in
  let s1 := run env [ToggleConnection; GetUserMediaRejected] s in
  let s2 := run env [ToggleConnection; ToggleConnection] s1 in
  connectionState s1 = ERROR
  /\ inputAudioContextRef s1 = Some n
  /\ outputAudioContextRef s1 = Some (S n)
  /\ List.filter isRelease (newEffects s s1) = []
  /\ connectionState s2 = DISCONNECTED
  /\ createdContexts (newEffects s s2) = [n; S n; S (S n); S (S (S n))]
  /\ closedContexts (newEffects s s2) = [S (S n); S (S (S n))].
Proof.
  intros Hkey Hr Hidle. destruct (reachable_invariant env s Hr) as [_ Hs].
  cbv zeta.
  set (s1 := mkState ERROR (displayText s) (expression s) (history s) (analyser s)
               (Some (nextId s)) (Some (S (nextId s))) (streamRef s) (sessionRef s)
               (nextStartTimeRef s) (sourcesRef s) (currentInputRef s)
               (isResultFinalRef s)
               (effects s ++ [NewAudioContext (nextId s) 16000;
                              NewAudioContext (S (nextId s)) 24000;
                              GetUserMedia;
                              ConsoleError "Connection failed"])
               (S (S (nextId s)))).
  assert (E1 : run env [ToggleConnection; GetUserMediaRejected] s = s1).
  { change (run env [ToggleConnection; GetUserMediaRejected] s)
      with (connect_rejected (fst (toggleConnection env s))).
    rewrite (toggle_idle s Hidle). cbn [fst]. rewrite (connect_with_key s Hkey).
    unfold connect_rejected, connect_catch, s1. fields.
    now rewrite <- !app_assoc. }
  rewrite E1.
  assert (E2 : run env [ToggleConnection; ToggleConnection] s1
               = tornDown (connect env s1) (releasesOf env (connect env s1))).
  { change (run env [ToggleConnection; ToggleConnection] s1)
      with (fst (toggleConnection env (fst (toggleConnection env s1)))).
    rewrite (toggle_idle s1) by (now right). cbn [fst].
    unfold toggleConnection. rewrite (connect_with_key s1 Hkey) at 1.
    cbn [connectionState]. cbv iota.
    rewrite cleanup_exact; [reflexivity|].
    rewrite (connect_with_key s1 Hkey). exact Hs. }
  rewrite E2.
  split; [reflexivity|]. split; [reflexivity|]. split; [reflexivity|].
  split; [unfold newEffects, s1; cbn [effects]; now rewrite drop_app_length|].
  split; [reflexivity|].
  unfold newEffects, tornDown. cbn [effects].
  rewrite !(connect_with_key s1 Hkey). cbn [effects].
  unfold s1. cbn [effects nextId]. rewrite <- !app_assoc, !drop_app_length.
  rewrite !createdContexts_app, !closedContexts_app, createdContexts_releasesOf,
    closedContexts_releasesOf.
  split; reflexivity.
Qed.



End Attempts.

(** ** After the teardown *)

Section Teardown.

Variable env : Env.


(** The nodes that the teardown of a reachable state stops are the nodes
    of the set of sources, each once and in the order in which they were
    put there; the set is empty afterwards. *)
Theorem teardown_stops_every_source_once (s : State) :
  reachable env s ->
  let s' := fst (cleanup env s) in
  stopped (newEffects s s') = map nodeId (sourcesRef s)
  /\ NoDup (map nodeId (sourcesRef s))
  /\ sourcesRef s' = [].
Proof.
  intros Hr. destruct (reachable_invariant env s Hr) as [_ Hs].
  destruct (reachable_wellAllocated env s Hr) as [_ Hnd].
  cbv zeta. rewrite (cleanup_exact env s Hs). cbn [fst].
  split; [|split; [exact Hnd|reflexivity]].
  unfold newEffects, tornDown. cbn [effects]. rewrite drop_app_length.
  apply stopped_releasesOf.
Qed.

(** What arrives after the teardown of a reachable state: the [ended] of
    a node that was stopped changes nothing, and a message has its audio
    fragment ignored (there is no output context) and its handler resolved,
    while its transcription and its tool calls are handled as ever. *)
Theorem late_arrivals_after_teardown p now (message : LiveServerMessage)
    (node : nat) (s : State) :
  reachable env s ->
  let s1 := fst (cleanup env s) in
  onended node s1 = s1
  /\ onmessage env p now message s1
     = (handleToolCall p message (handleTranscription message s1), Normal).
Proof.
  intros Hr. destruct (reachable_invariant env s Hr) as [_ Hs].
  cbv zeta. rewrite (cleanup_exact env s Hs). cbn [fst].
  split; [reflexivity|].
  unfold onmessage.
  destruct (beforeAudio_playback p message (tornDown s (releasesOf env s)))
    as (_ & Hc & _).
  unfold handleAudio. rewrite Hc. cbn [tornDown outputAudioContextRef].
  now destruct (base64Audio message) as [[|c b]|].
Qed.

End Teardown.

(** ** What holds along every run *)

Section AlongRuns.

Variable env : Env.

(** *** The cursor *)

Lemma handleAudio_cursor now message s :
  durationsNonNegative env ->
  (nextStartTimeRef s <= nextStartTimeRef (fst (handleAudio env now message s)))%Z.
Proof.
  intros Hdur. unfold handleAudio.
  destruct (base64Audio message) as [[|c b]|]; try (simpl; lia).
  destruct (outputAudioContextRef s) as [ctx|]; try (simpl; lia).
  destruct (decodeFragment env ctx (String c b)) as [audioBuffer|] eqn:Hdec;
    [|simpl; lia].
  unfold decodeFragment in Hdec.
  destruct (decode env (String c b)) as [bytes|]; [|discriminate].
  apply Hdur in Hdec. simpl. lia.
Qed.

Lemma step_cursor e s :
  durationsNonNegative env ->
  (nextStartTimeRef s <= nextStartTimeRef (step env e s))%Z.
Proof.
  intros Hdur. destruct e; simpl; try lia.
  - unfold toggleConnection. destruct (connectionState s);
      try (destruct (cleanup_keeps env s) as (_ & _ & _ & H & _); rewrite H; lia);
      unfold connect, connect_catch; destruct (API_KEY env) as [[|c k]|]; simpl; lia.
  - destruct (cleanup_keeps env s) as (_ & _ & _ & H & _). rewrite H. lia.
  - unfold onmessage.
    destruct (beforeAudio_playback sessionPromise message s) as (Hn & _).
    rewrite <- Hn. now apply handleAudio_cursor.
  - unfold onerror.
    destruct (cleanup_keeps env
                (setConnectionState ERROR (emit (ConsoleError "Gemini Live Error") s)))
      as (_ & _ & _ & H & _).
    rewrite H. simpl. lia.
Qed.

(** With a decoder that gives no negative duration, the cursor never
    moves back, whatever happens: messages, ended nodes, resets, failed and
    successful attempts, teardowns.  The teardown in particular leaves it
    where it is: a new session starts with the cursor of the last one. *)
Theorem cursor_never_moves_back (events : list Event) (s : State) :
  durationsNonNegative env ->
  (nextStartTimeRef s <= nextStartTimeRef (run env events s))%Z
  /\ nextStartTimeRef (fst (cleanup env s)) = nextStartTimeRef s.
Proof.
  intros Hdur. split; [|now destruct (cleanup_keeps env s) as (_ & _ & _ & H & _)].
  revert s. induction events as [|e events IH]; intros s; [simpl; lia|].
  change (run env (e :: events) s) with (run env events (step env e s)).
  pose proof (step_cursor e s Hdur). specialize (IH (step env e s)). lia.
Qed.

(** *** The result and its entry in the history *)

Lemma resultIsLogged_frame s s' :
  displayText s' = displayText s -> history s' = history s ->
  currentInputRef s' = currentInputRef s ->
  isResultFinalRef s' = isResultFinalRef s ->
  resultIsLogged s -> resultIsLogged s'.
Proof. unfold resultIsLogged. intros -> -> -> ->. auto. Qed.

Lemma resultIsLogged_down s : isResultFinalRef s = false -> resultIsLogged s.
Proof. unfold resultIsLogged. congruence. Qed.

Lemma handleTranscription_logged message s :
  resultIsLogged s -> resultIsLogged (handleTranscription message s).
Proof.
  intros H. destruct (string_dec (fragmentText message) "") as [Hnone|Hsome].
  - now rewrite handleTranscription_none.
  - apply resultIsLogged_down.
    now destruct (handleTranscription_text message s Hsome) as (_ & _ & G).
Qed.

Lemma functionCallBody_logged s rs fc :
  resultIsLogged s -> resultIsLogged (fst (functionCallBody (s, rs) fc)).
Proof.
  intros H. unfold functionCallBody.
  destruct (String.eqb (fc_name fc) "displayResult"); [intros _; reflexivity|].
  destruct (String.eqb (fc_name fc) "resetApp"); [now apply resultIsLogged_down|exact H].
Qed.

Lemma functionCalls_logged calls : forall s rs,
  resultIsLogged s -> resultIsLogged (fst (fold_left functionCallBody calls (s, rs))).
Proof.
  induction calls as [|fc calls IH]; intros s rs H; [exact H|].
  change (fold_left functionCallBody (fc :: calls) (s, rs))
    with (fold_left functionCallBody calls (functionCallBody (s, rs) fc)).
  pose proof (functionCallBody_logged s rs fc H) as H1.
  destruct (functionCallBody (s, rs) fc) as [s1 rs1]. now apply IH.
Qed.

Lemma handleToolCall_logged p message s :
  resultIsLogged s -> resultIsLogged (handleToolCall p message s).
Proof.
  intros H. unfold handleToolCall.
  destruct (toolCall message) as [tc|]; [|exact H].
  pose proof (functionCalls_logged (functionCalls tc)
                (emit (ConsoleLog "Tool Call:") s) [] H) as H1.
  destruct (fold_left functionCallBody (functionCalls tc)
              (emit (ConsoleLog "Tool Call:") s, [])) as [s1 rs1].
  exact H1.
Qed.

Lemma handleAudio_logged now message s :
  resultIsLogged s -> resultIsLogged (fst (handleAudio env now message s)).
Proof.
  unfold handleAudio.
  destruct (base64Audio message) as [[|c b]|]; try easy.
  destruct (outputAudioContextRef s) as [ctx|]; try easy.
  destruct (decodeFragment env ctx (String c b)); easy.
Qed.

Lemma step_logged e s :
  invariant s -> resultIsLogged s -> resultIsLogged (step env e s).
Proof.
  intros [_ Hs] H. destruct e; simpl; try exact H.
  - unfold toggleConnection. destruct (connectionState s);
      try (rewrite (cleanup_exact env s Hs); now apply resultIsLogged_down);
      revert H; apply resultIsLogged_frame;
      unfold connect, connect_catch; destruct (API_KEY env) as [[|c k]|]; reflexivity.
  - now apply resultIsLogged_down.
  - rewrite (cleanup_exact env s Hs). now apply resultIsLogged_down.
  - unfold onmessage.
    now apply handleAudio_logged, handleToolCall_logged, handleTranscription_logged.
  - unfold onerror. rewrite cleanup_exact by exact Hs. now apply resultIsLogged_down.
Qed.

(** In every reachable state in which a result is final, the head of the
    history is the entry of that result: the buffer, " = ", and the
    displayed result. *)
Theorem final_result_heads_the_history (s : State) :
  reachable env s ->
  isResultFinalRef s = true ->
  head (history s) = Some (currentInputRef s +:+ " = " +:+ toString (displayText s)).
Proof.
  intros Hr. change (resultIsLogged s).
  induction Hr as [|e s Hr IH]; [now apply resultIsLogged_down|].
  apply step_logged; [exact (reachable_invariant env s Hr)|exact IH].
Qed.

(** *** The displayed result as a string *)

Lemma functionCallBody_string s rs fc :
  (fc_name fc = "displayResult" -> isString (textOf fc)) ->
  isString (displayText s) ->
  isString (displayText (fst (functionCallBody (s, rs) fc))).
Proof.
  intros Hfc H. unfold functionCallBody.
  destruct (String.eqb (fc_name fc) "displayResult") eqn:E.
  - apply String.eqb_eq in E. exact (Hfc E).
  - destruct (String.eqb (fc_name fc) "resetApp"); [now exists "0"|exact H].
Qed.

Lemma functionCalls_string calls : forall s rs,
  Forall (fun fc => fc_name fc = "displayResult" -> isString (textOf fc)) calls ->
  isString (displayText s) ->
  isString (displayText (fst (fold_left functionCallBody calls (s, rs)))).
Proof.
  induction calls as [|fc calls IH]; intros s rs Hall H; [exact H|].
  inversion Hall as [|? ? Hfc Hrest]; subst.
  change (fold_left functionCallBody (fc :: calls) (s, rs))
    with (fold_left functionCallBody calls (functionCallBody (s, rs) fc)).
  pose proof (functionCallBody_string s rs fc Hfc H) as H1.
  destruct (functionCallBody (s, rs) fc) as [s1 rs1]. now apply IH.
Qed.

Lemma onmessage_string p now message s :
  carriesStringTexts (OnMessage p now message) ->
  isString (displayText s) ->
  isString (displayText (fst (onmessage env p now message s))).
Proof.
  simpl. intros Hm H. unfold onmessage.
  assert (H1 : isString (displayText (handleTranscription message s))).
  { unfold handleTranscription.
    destruct (inputTr message ?. text) as [[|c t]|]; try exact H.
    destruct (isResultFinalRef s); exact H. }
  assert (H2 : isString (displayText
                           (handleToolCall p message (handleTranscription message s)))).
  { unfold handleToolCall. destruct (toolCall message) as [tc|]; [|exact H1].
    pose proof (functionCalls_string (functionCalls tc)
                  (emit (ConsoleLog "Tool Call:") (handleTranscription message s))
                  [] Hm H1) as H2.
    destruct (fold_left functionCallBody (functionCalls tc)
                (emit (ConsoleLog "Tool Call:") (handleTranscription message s), []))
      as [s1 rs1].
    exact H2. }
  revert H2. generalize (handleToolCall p message (handleTranscription message s)).
  intros s2 H2. unfold handleAudio.
  destruct (base64Audio message) as [[|c b]|]; try exact H2.
  destruct (outputAudioContextRef s2) as [ctx|]; try exact H2.
  destruct (decodeFragment env ctx (String c b)); exact H2.
Qed.

Lemma step_string e s :
  carriesStringTexts e ->
  isString (displayText s) -> isString (displayText (step env e s)).
Proof.
  intros He H. destruct e; simpl; try exact H.
  - unfold toggleConnection. destruct (connectionState s);
      try (destruct (cleanup_keeps env s) as (K & _); now rewrite K);
      unfold connect, connect_catch; destruct (API_KEY env) as [[|c k]|]; exact H.
  - now exists "0".
  - destruct (cleanup_keeps env s) as (K & _). now rewrite K.
  - now apply onmessage_string.
  - unfold onerror.
    destruct (cleanup_keeps env
                (setConnectionState ERROR (emit (ConsoleError "Gemini Live Error") s)))
      as (K & _).
    now rewrite K.
Qed.

(** As long as every [displayResult] call that arrives carries a string as
    its [text], the displayed result is a string in every state reached, so
    that its [length] can be read when the component is drawn. *)
Theorem displayed_result_stays_a_string (s : State) :
  reachableBy env carriesStringTexts s ->
  exists t, displayText s = JString t.
Proof.
  induction 1 as [|e s He Hr IH]; [now eexists|].
  now apply step_string.
Qed.

End AlongRuns.

(** * The further properties at work on the sample data *)

Lemma sample_connected_reachable : reachable Sample.env Sample.connected.
Proof.
  unfold Sample.connected, Sample.pendingOpen.
  apply run_reachable, run_reachable, reachable_initial.
Qed.

Lemma sample_playing_reachable : reachable Sample.env Sample.playing.
Proof.
  unfold Sample.playing, deliver. apply run_reachable, sample_connected_reachable.
Qed.

Lemma sample_finalized_reachable : reachable Sample.env Sample.finalized35.
Proof.
  unfold Sample.finalized35, Sample.typed35, deliver.
  apply run_reachable, run_reachable, reachable_initial.
Qed.

Lemma run_reachableBy env (P : Event -> Prop) events : forall s,
  Forall P events -> reachableBy env P s -> reachableBy env P (run env events s).
Proof.
  induction events as [|e events IH]; intros s Hall Hs; [exact Hs|].
  inversion Hall as [|? ? He Hrest]; subst.
  apply IH; [exact Hrest|]. now constructor.
Qed.

Lemma sample_durations : durationsNonNegative Sample.env.
Proof. intros bytes ctx rate channels ab H. injection H as <-. simpl. lia. Qed.

(** A batch of two unknown calls after "3+5". *)
Lemma unrecognized_batch_sample :
  let calls := [Sample.unknownCall "a"; Sample.unknownCall "b"] in
  handleToolCall 4 (toolCallMessage calls) Sample.typed35
  = set_effects
      (effects Sample.typed35
       ++ [ConsoleLog "Tool Call:";
           SendToolResponse 4 (map acknowledgement calls)])
      Sample.typed35.
Proof.
  apply (unrecognized_batch_changes_only_the_trace 4
           (toolCallMessage [Sample.unknownCall "a"; Sample.unknownCall "b"])
           {| functionCalls := [Sample.unknownCall "a"; Sample.unknownCall "b"] |}
           Sample.typed35); [reflexivity|].
  repeat constructor; discriminate.
Defined.

(** A result, a reset and an unknown call in one batch. *)
Lemma resetApp_sample :
  isReset
    (fst (fold_left functionCallBody
            ([Sample.displayResult "a" "8"] ++ Sample.resetApp "r"
             :: [Sample.unknownCall "u"])
            (Sample.typed35, []))).
Proof.
  apply (resetApp_resets_whatever_came_before
           [Sample.displayResult "a" "8"] [Sample.unknownCall "u"]
           (Sample.resetApp "r") Sample.typed35 []); [reflexivity|].
  repeat constructor; discriminate.
Defined.

(** The reset by tool call and by button after the result of "3+5". *)
Lemma resetApp_is_manual_reset_sample :
  let s := Sample.finalized35 in
  let s' := handleManualReset s in
  fst (functionCallBody (s, []) (Sample.resetApp "r")) = s'
  /\ isReset s'
  /\ connectionState s' = connectionState s
  /\ analyser s' = analyser s
  /\ (streamRef s' = streamRef s /\ sessionRef s' = sessionRef s
      /\ inputAudioContextRef s' = inputAudioContextRef s
      /\ outputAudioContextRef s' = outputAudioContextRef s)
  /\ (sourcesRef s' = sourcesRef s /\ nextStartTimeRef s' = nextStartTimeRef s)
  /\ effects s' = effects s.
Proof.
  exact (resetApp_is_manual_reset (Sample.resetApp "r") Sample.finalized35 [] eq_refl).
Defined.




(** ... and the end of that node. *)
Lemma ended_sample :
  sourcesRef
    (onended 5 (fst (onmessage Sample.env 4 5 (audioMessage "AAAA") Sample.connected)))
  = [].
Proof.
  apply (ended_undoes_scheduling Sample.env 4 5 (audioMessage "AAAA") "AAAA" 1
           {| duration := 10 |} Sample.connected);
    [exact sample_connected_reachable|reflexivity|discriminate|reflexivity|reflexivity].
Defined.


(** Three presses of the button without a key. *)
Lemma without_key_sample :
  let s' := run Sample2.noKey (repeat ToggleConnection 3) initialState in
  connectionState s' = ERROR
  /\ newEffects initialState s' = repeat (ConsoleError "Connection failed") 3
  /\ (streamRef s' = None /\ sessionRef s' = None
      /\ inputAudioContextRef s' = None /\ outputAudioContextRef s' = None)
  /\ nextId s' = 0.
Proof.
  apply (without_key_every_attempt_fails Sample2.noKey 2 initialState);
    left; reflexivity.
Defined.

(** The microphone refused on the first attempt, then a second attempt
    and a teardown: contexts 0 and 1 stay open. *)
Lemma rejected_attempt_sample :
  let s1 := run Sample.env [ToggleConnection; GetUserMediaRejected] initialState in
  let s2 := run Sample.env [ToggleConnection; ToggleConnection] s1 in
  connectionState s1 = ERROR
  /\ inputAudioContextRef s1 = Some 0
  /\ outputAudioContextRef s1 = Some 1
  /\ List.filter isRelease (newEffects initialState s1) = []
  /\ connectionState s2 = DISCONNECTED
  /\ createdContexts (newEffects initialState s2) = [0; 1; 2; 3]
  /\ closedContexts (newEffects initialState s2) = [2; 3].
Proof.
  apply (rejected_attempt_leaves_its_contexts_open Sample.env initialState).
  - exists "key". split; [reflexivity|discriminate].
  - apply reachable_initial.
  - left. reflexivity.
Defined.



(** The teardown while two buffers are playing. *)
Lemma teardown_stops_sample :
  let s' := fst (cleanup Sample.env Sample.playing) in
  stopped (newEffects Sample.playing s') = [5; 6]
  /\ NoDup [5; 6]
  /\ sourcesRef s' = [].
Proof.
  exact (teardown_stops_every_source_once Sample.env Sample.playing
           sample_playing_reachable).
Defined.

(** A late [ended] and a late fragment after that teardown. *)
Lemma late_arrivals_sample :
  let s1 := fst (cleanup Sample.env Sample.playing) in
  onended 5 s1 = s1
  /\ onmessage Sample.env 4 30 (audioMessage "AAAA") s1
     = (handleToolCall 4 (audioMessage "AAAA")
          (handleTranscription (audioMessage "AAAA") s1), Normal).
Proof.
  exact (late_arrivals_after_teardown Sample.env 4 30 (audioMessage "AAAA") 5
           Sample.playing sample_playing_reachable).
Defined.

(** The cursor over a session with two buffers, a stop and a new attempt. *)
Lemma cursor_sample :
  let events := [ToggleConnection; GetUserMediaResolved; OnOpen 0;
                 OnMessage 4 5 (audioMessage "AAAA");
                 OnMessage 4 7 (audioMessage "BBBB");
                 ToggleConnection; ToggleConnection] in
  (0 <= nextStartTimeRef (run Sample.env events initialState))%Z
  /\ nextStartTimeRef (run Sample.env events initialState) = 25%Z
  /\ nextStartTimeRef (fst (cleanup Sample.env Sample.playing)) = 25%Z.
Proof.
  split; [|split; reflexivity].
  apply (cursor_never_moves_back Sample.env
           [ToggleConnection; GetUserMediaResolved; OnOpen 0;
            OnMessage 4 5 (audioMessage "AAAA");
            OnMessage 4 7 (audioMessage "BBBB");
            ToggleConnection; ToggleConnection] initialState sample_durations).
Defined.

(** The head of the history after the result of "3+5". *)
Lemma final_result_sample :
  head (history Sample.finalized35) = Some "3+5 = 8".
Proof.
  exact (final_result_heads_the_history Sample.env Sample.finalized35
           sample_finalized_reachable eq_refl).
Defined.

(** The displayed result after the result of "3+5". *)
Lemma displayed_result_sample :
  exists t, displayText Sample.finalized35 = JString t.
Proof.
  apply (displayed_result_stays_a_string Sample.env Sample.finalized35).
  unfold Sample.finalized35, Sample.typed35, deliver.
  apply run_reachableBy; [|apply run_reachableBy; [|apply reachableBy_initial]].
  - repeat constructor. intros _. now exists "8".
  - repeat constructor.
Defined.
